(** * Hospital Patient Analytics dashboard ([finalapp.py])

    A shallow embedding of the dashboard script: the record store
    ([load_data]), the sidebar filter ([filtered_df]), the aggregates shown
    on the four tabs, the name search and the CSV export, followed by the
    properties of the pipeline.

    The script is written against pandas.  The pandas operations it calls
    are embedded here with the semantics they have on the data the script
    feeds them: a [DataFrame] is a list of column names and a list of
    rows, integers are [Z], text is ASCII, a float64 mean is the rational
    number it holds ([Q], rounded to binary64), the Pearson coefficient is
    computed in binary64, [NaN]/[NaT] are explicit constructors or
    [None].  Part I is the embedding, in the order of the
    script; Part II holds the properties. *)

From Stdlib Require Import ZArith List Bool String Ascii Lia.
From Stdlib Require Import QArith.
From Stdlib Require Import Permutation Sorted.
From Stdlib Require Import DecimalString DecimalZ DecimalPos.
From Stdlib Require Floats Uint63.
Import ListNotations.

Local Open Scope Z_scope.
Local Open Scope list_scope.

(* ================================================================== *)
(** * Part I: the embedding                                             *)
(* ================================================================== *)

(** ** Python values and exceptions *)

Module Py.

(** The exceptions the script can end in. *)
Inductive exn : Type :=
| FileNotFoundError   (* pd.read_csv on a missing patients.csv *)
| KeyError            (* label lookup that finds nothing *)
| IndexError          (* positional lookup out of range *)
| ValueError          (* int(nan), unparseable date *)
| AttributeError      (* the .str accessor on a column that holds no text *)
| PatternError.       (* the regex compiler rejects the pattern: re.error
                         from Python's re, ArrowInvalid from the Arrow
                         string engine of pandas 3 *)

(** The outcome of a computation.  [Unsupported] is no outcome of the
    script: it marks an input outside the part of the libraries' behaviour
    that is embedded (a search term that uses pattern operators other than
    the dot, a name that is not ASCII, a file whose fields the embedded
    type inference does not cover). *)
Inductive result (A : Type) : Type :=
| Ok (a : A)
| Raise (e : exn)
| Unsupported.
Arguments Ok {A} a.
Arguments Raise {A} e.
Arguments Unsupported {A}.

(** A scalar held in an object / int64 column: an integer, a string or
    the missing value. *)
Inductive cell : Type :=
| CInt (z : Z)
| CStr (s : string)
| CNaN.

(** A float64 result that may be [nan]; a finite one is kept as the number
    it holds. *)
Inductive float (A : Type) : Type :=
| NaN
| Fin (x : A).
Arguments NaN {A}.
Arguments Fin {A} x.

End Py.
Export Py.

(** ** The data model *)

(** A [datetime64] value; the embedding keeps the calendar date (the
    input holds dates, spec section 6). *)
Record Timestamp : Type := mkTimestamp {
  year : Z;
  month : Z;
  day : Z
}.

(** The five categories of [pd.cut(..., labels=[...])], in label order. *)
Inductive AgeLabel : Type :=
| L0_18     (* '0-18' *)
| L19_35    (* '19-35' *)
| L36_50    (* '36-50' *)
| L51_65    (* '51-65' *)
| L65plus.  (* '65+' *)

(** A value of a date column: the text read from the file, or, after
    [pd.to_datetime], a timestamp or [NaT]. *)
Inductive date_value : Type :=
| DateText (s : string)
| Date (t : Timestamp)
| NaT.

(** One row of the frame.  [length_of_stay] and [age_group] hold a value
    only when the frame's [columns] list the column; [None] there is
    [NaN]. *)
Record Row : Type := mkRow {
  patient_id : cell;
  name : cell;
  age : Z;
  service : string;
  arrival_date : date_value;
  departure_date : date_value;
  satisfaction : Z;
  length_of_stay : option Z;
  age_group : option AgeLabel
}.

(** The dtype pandas gives a column of the file. *)
Inductive dtype : Type := int64 | float64 | object.

(** A frame: its column names, the dtypes the script's operations depend
    on (of [name] for the [.str] accessor, of [length_of_stay] for the
    export), and its rows in order. *)
Record DataFrame : Type := mkDataFrame {
  columns : list string;
  name_dtype : dtype;
  length_of_stay_dtype : dtype;
  rows : list Row
}.

(** [len(df)] *)
Definition len (d : DataFrame) : Z := Z.of_nat (List.length (rows d)).

(** ** The filter (lines 63-68) *)

(** [Series.isin(values)] on one element. *)
Definition isin (s : string) (values : list string) : bool :=
  existsb (String.eqb s) values.

(** The sidebar selections: the multiselect's list, the slider's pair and
    the number input. *)
Record Criteria : Type := mkCriteria {
  services : list string;
  age_range : Z * Z;
  min_satisfaction : Z
}.

(** The boolean mask of lines 64-67, one row at a time. *)
Definition mask (c : Criteria) (r : Row) : bool :=
  isin (service r) (services c)
  && (fst (age_range c) <=? age r)
  && (age r <=? snd (age_range c))
  && (min_satisfaction c <=? satisfaction r).

(** [df[mask]]: boolean indexing builds a new frame with the same columns
    and the rows whose mask is true, in order. *)
Definition boolean_index (m : Row -> bool) (d : DataFrame) : DataFrame :=
  mkDataFrame (columns d) (name_dtype d) (length_of_stay_dtype d)
              (filter m (rows d)).

Definition filtered_df (c : Criteria) (df : DataFrame) : DataFrame :=
  boolean_index (mask c) df.

(** A subsequence: the elements of the first list appear in the second in
    the same relative order. *)
Inductive Subseq {A : Type} : list A -> list A -> Prop :=
| Subseq_nil : Subseq [] []
| Subseq_skip x l1 l2 : Subseq l1 l2 -> Subseq l1 (x :: l2)
| Subseq_keep x l1 l2 : Subseq l1 l2 -> Subseq (x :: l1) (x :: l2).

(** ** Age groups (lines 173-175) *)

(** [np.searchsorted(bins, x, side='left')] on increasing [bins]: the
    position of the first bin that is not below [x]. *)
Fixpoint searchsorted_left (bins : list Z) (x : Z) : nat :=
  match bins with
  | [] => O
  | b :: bs => if b <? x then S (searchsorted_left bs x) else O
  end.

(** [pd.cut(x, bins, labels)] with the defaults [right=True],
    [include_lowest=False]: bin [i] is the interval (bins[i-1], bins[i]];
    a value at or below the first edge, or above the last one, gets [NaN]
    ([None]). *)
Definition cut {L : Type} (bins : list Z) (labels : list L) (x : Z) : option L :=
  let ids := searchsorted_left bins x in
  if (ids =? List.length bins)%nat || (ids =? 0)%nat then None
  else nth_error labels (ids - 1).

Definition age_bins : list Z := [0; 18; 35; 50; 65; 100].
Definition age_labels : list AgeLabel := [L0_18; L19_35; L36_50; L51_65; L65plus].

Definition age_group_of (a : Z) : option AgeLabel := cut age_bins age_labels a.

(** The partition as the specification words it: [0,18], [19,35],
    [36,50], [51,65], [66,inf) over the non-negative ages. *)
Definition spec_age_group (a : Z) : option AgeLabel :=
  if a <? 0 then None
  else if a <=? 18 then Some L0_18
  else if a <=? 35 then Some L19_35
  else if a <=? 50 then Some L36_50
  else if a <=? 65 then Some L51_65
  else Some L65plus.

Definition set_age_group (r : Row) (g : option AgeLabel) : Row :=
  mkRow (patient_id r) (name r) (age r) (service r) (arrival_date r)
        (departure_date r) (satisfaction r) (length_of_stay r) g.

(** [d[col] = values]: an existing column keeps its place, a new one is
    appended. *)
Definition setitem_columns (cols : list string) (col : string) : list string :=
  if existsb (String.eqb col) cols then cols else cols ++ [col].

(** [d['age_group'] = pd.cut(d['age'], ...)] as a function of the frame's
    value (line 173). *)
Definition assign_age_group (d : DataFrame) : DataFrame :=
  mkDataFrame (setitem_columns (columns d) "age_group") (name_dtype d)
              (length_of_stay_dtype d)
              (map (fun r => set_age_group r (age_group_of (age r))) (rows d)).

(** ** Aggregates *)

Section Sort.
Context {A : Type} (leb : A -> A -> bool).

Fixpoint insert_sorted (x : A) (l : list A) : list A :=
  match l with
  | [] => [x]
  | y :: ys => if leb x y then x :: l else y :: insert_sorted x ys
  end.

Definition insertion_sort (l : list A) : list A :=
  fold_right insert_sorted [] l.

End Sort.

(** The distinct values of a column in order of first appearance (the
    order of pandas' hash table: [Series.unique], the keys of
    [value_counts] and of [mode] before sorting). *)
Fixpoint unique (l : list string) : list string :=
  match l with
  | [] => []
  | x :: xs => x :: filter (fun y => negb (String.eqb x y)) (unique xs)
  end.

Definition count (l : list string) (v : string) : nat :=
  List.length (filter (String.eqb v) l).

Definition max_count (l : list string) : nat :=
  fold_right Nat.max O (map (count l) (unique l)).

(** [Series.mode()]: the values with the highest count, sorted
    ascending ([algorithms.mode] ends in [np.sort]); the result has a
    fresh index 0, 1, ... *)
Definition mode (l : list string) : list string :=
  insertion_sort String.leb
    (filter (fun v => (count l v =? max_count l)%nat) (unique l)).

(** [s[0]] on a Series with the default index: the label 0 is missing
    exactly when the Series is empty. *)
Definition getitem_0 {A : Type} (s : list A) : result A :=
  match s with
  | [] => Raise KeyError
  | x :: _ => Ok x
  end.

(** [index[0]], [values[0]]: positional lookups. *)
Definition first {A : Type} (s : list A) : result A :=
  match s with
  | [] => Raise IndexError
  | x :: _ => Ok x
  end.

(** [index[-1]], [values[-1]] *)
Definition last_item {A : Type} (s : list A) : result A :=
  match rev s with
  | [] => Raise IndexError
  | x :: _ => Ok x
  end.

(** Line 96. *)
Definition most_common_service (d : DataFrame) : result string :=
  getitem_0 (mode (map service (rows d))).

(** The tie-break as the specification words it: among the values of
    highest frequency, the one that occurs first in the input. *)
Definition spec_mode (l : list string) : option string :=
  hd_error (filter (fun v => (count l v =? max_count l)%nat) (unique l)).

Definition sumZ (l : list Z) : Z := fold_right Z.add 0 l.

(** *** The float64 nearest to a rational

    A float64 result is kept as the rational number it is.  [round64 q] is
    the binary64 value nearest to [q], ties to the even significand: the
    significand has 53 bits, so [q] is scaled by the power of two [2^e]
    that brings it into [2^52, 2^53), rounded to an integer and scaled
    back.  (The exponent range is left out: the quotients of int64 sums by
    counts stay far inside it.) *)

(** The integer part of the binary logarithm of [a/d]. *)
Definition floor_log2 (a d : positive) : Z :=
  let k := Z.log2 (Zpos a) - Z.log2 (Zpos d) in
  if (if 0 <=? k then Zpos d * 2 ^ k <=? Zpos a
      else Zpos d <=? Zpos a * 2 ^ (- k))
  then k else k - 1.

(** The integer nearest to [num/den], the even one on a tie. *)
Definition round_half_even (num den : Z) : Z :=
  let q := num / den in
  match 2 * (num mod den) ?= den with
  | Lt => q
  | Gt => q + 1
  | Eq => if Z.even q then q else q + 1
  end.

Definition round64_pos (a d : positive) : Q :=
  let e := floor_log2 a d - 52 in
  if 0 <=? e
  then inject_Z (round_half_even (Zpos a) (Zpos d * 2 ^ e) * 2 ^ e)
  else Qred (round_half_even (Zpos a * 2 ^ (- e)) (Zpos d)
             # Z.to_pos (2 ^ (- e))).

Definition round64 (q : Q) : Q :=
  match Qnum q with
  | Z0 => 0
  | Zpos a => round64_pos a (Qden q)
  | Zneg a => - round64_pos a (Qden q)
  end.

(** The sum of an int64 column taken in float64 is the exact sum, in
    whatever order the library adds, as long as no partial sum needs more
    than 53 bits; the count is exact under the same bound.  Past the
    bound the library's sum is rounded in an order of its own choosing
    and is not embedded: what is stated about the value of a mean carries
    [exact_sum] as a hypothesis. *)
Definition exact_sum (l : list Z) : bool :=
  (sumZ (map Z.abs l) <? 2 ^ 53) && (Z.of_nat (List.length l) <? 2 ^ 53).

(** [Series.mean()] of an integer column, and the mean of one group of
    [groupby(...).mean()]: [nan] on an empty one, otherwise the float64
    quotient of the sum by the count. *)
Definition mean (l : list Z) : float Q :=
  match l with
  | [] => NaN
  | _ => Fin (round64 (sumZ l # Pos.of_nat (List.length l)))
  end.

(** The values of a float column that are not [NaN] ([skipna]). *)
Definition dropna {A : Type} (l : list (option A)) : list A :=
  flat_map (fun o => match o with Some x => [x] | None => [] end) l.

(** Lines 84, 88 and 92. *)
Definition avg_satisfaction (d : DataFrame) : float Q :=
  mean (map satisfaction (rows d)).
Definition avg_stay (d : DataFrame) : float Q :=
  mean (dropna (map length_of_stay (rows d))).
Definition total_patients (d : DataFrame) : Z := len d.

(** The satisfaction values of one service group. *)
Definition group_values (k : string) (rs : list Row) : list Z :=
  map satisfaction (filter (fun r => String.eqb (service r) k) rs).

(** [d.groupby('service')['satisfaction'].mean()]: one entry per service
    present, the keys in ascending order ([sort=True]). *)
Definition groupby_service_mean (rs : list Row) : list (string * float Q) :=
  map (fun k => (k, mean (group_values k rs)))
      (insertion_sort String.leb (unique (map service rs))).

Definition AgeLabel_eqb (a b : AgeLabel) : bool :=
  match a, b with
  | L0_18, L0_18 | L19_35, L19_35 | L36_50, L36_50
  | L51_65, L51_65 | L65plus, L65plus => true
  | _, _ => false
  end.

(** The satisfaction values of one age bucket (rows whose [age_group] is
    [NaN] belong to no group). *)
Definition bucket_values (g : AgeLabel) (rs : list Row) : list Z :=
  map satisfaction
      (filter (fun r => match age_group r with
                        | Some g' => AgeLabel_eqb g g'
                        | None => false
                        end) rs).

(** [d.groupby('age_group')['satisfaction'].mean()] on the categorical
    column (line 177): the categories in their declared order.  With
    [observed=False] every category is listed, an empty one with [nan];
    with [observed=True] only the categories that occur.  [observed] is
    the library's default, which differs between pandas releases (False
    before 3.0, True from 3.0), so it is a parameter here. *)
Definition age_group_satisfaction (observed : bool) (d : DataFrame)
  : list (AgeLabel * float Q) :=
  flat_map (fun g =>
              match bucket_values g (rows d) with
              | [] => if observed then [] else [(g, NaN)]
              | vs => [(g, mean vs)]
              end) age_labels.

Section SortValues.

(** [numpy.argsort(kind='quicksort')] of the non-missing values: the
    positions of the values in ascending order.  The script passes no
    [kind], and numpy's quicksort does not fix the order of equal
    elements (it depends on the array length and on the build), so the
    algorithm is a parameter; what is proved about sorted output states
    the assumption it needs. *)
Variable argsort_f64 : list Q -> list nat.
Variable argsort_i64 : list Z -> list nat.

(** [a[indexer]]: the elements at the given positions. *)
Definition take {A : Type} (l : list A) (indexer : list nat) : list A :=
  flat_map (fun i => match nth_error l i with
                     | Some x => [x]
                     | None => []
                     end) indexer.

Definition notna {K : Type} (s : list (K * float Q)) : list (K * Q) :=
  flat_map (fun e => match snd e with
                     | Fin q => [(fst e, q)]
                     | NaN => []
                     end) s.

Definition isna {K : Type} (s : list (K * float Q)) : list (K * float Q) :=
  filter (fun e => match snd e with NaN => true | Fin _ => false end) s.

(** [Series.sort_values(ascending=False)] through [nargsort]: the
    non-missing entries are reversed, arg-sorted ascending, and the result
    reversed again; missing values go last. *)
Definition sort_values_desc {K : Type} (s : list (K * float Q))
  : list (K * float Q) :=
  let non_nans := rev (notna s) in
  let indexer := argsort_f64 (map snd non_nans) in
  map (fun e => (fst e, Fin (snd e))) (rev (take non_nans indexer)) ++ isna s.

(** Line 103. *)
Definition service_satisfaction (d : DataFrame) : list (string * float Q) :=
  sort_values_desc (groupby_service_mean (rows d)).

(** [Series.value_counts()]: the count of each distinct value, sorted by
    descending count with the same [nargsort]. *)
Definition value_counts (l : list string) : list (string * Z) :=
  let counts := rev (map (fun v => (v, Z.of_nat (count l v))) (unique l)) in
  rev (take counts (argsort_i64 (map snd counts))).

(** Line 221. *)
Definition service_counts (d : DataFrame) : list (string * Z) :=
  value_counts (map service (rows d)).

End SortValues.

(** A stable arg-sort (insertion sort on the positions), the behaviour
    of numpy's quicksort on the short arrays it hands to insertion sort. *)
Definition stable_argsort {V : Type} (leb : V -> V -> bool) (l : list V) : list nat :=
  map fst (insertion_sort (fun a b => leb (snd a) (snd b))
                          (combine (seq 0 (List.length l)) l)).

(** An arg-sort that returns equal values in the reverse of their order:
    as much a quicksort result as the stable one (numpy documents
    [kind='quicksort'] as not stable, and its vectorised sorting networks
    do move equal keys). *)
Definition later_first (a b : nat * Q) : bool :=
  Qle_bool (snd a) (snd b)
  && (negb (Qle_bool (snd b) (snd a)) || (fst b <=? fst a)%nat).

Definition reversing_argsort (l : list Q) : list nat :=
  map fst (insertion_sort later_first (combine (seq 0 (List.length l)) l)).

(** ** Vocabulary of the statements about group means *)

Definition list_min (l : list Z) : Z := fold_right Z.min (hd 0 l) l.
Definition list_max (l : list Z) : Z := fold_right Z.max (hd 0 l) l.

(** [m] is a finite mean lying between the least and the greatest of the
    values [vs]. *)
Definition mean_within (vs : list Z) (m : float Q) : Prop :=
  exists q, m = Fin q
            /\ (inject_Z (list_min vs) <= q)%Q /\ (q <= inject_Z (list_max vs))%Q.

(** What an arg-sort has to do to be one: return every position once,
    with the values ascending along the returned positions. *)
Definition sorts {V : Type} (le : V -> V -> Prop)
           (argsort : list V -> list nat) : Prop :=
  forall l, Permutation (argsort l) (seq 0 (List.length l))
            /\ StronglySorted le
                 (take l (argsort l)).

(** The order on [float Q] entries used by the statements ([nan] is not
    compared: the means of observed groups are finite). *)
Definition fle (a b : float Q) : Prop :=
  match a, b with
  | Fin x, Fin y => (x <= y)%Q
  | _, _ => False
  end.

(** Descending by mean. *)
Definition desc_by_mean {K : Type} (s : list (K * float Q)) : Prop :=
  StronglySorted (fun a b => fle (snd b) (snd a)) s.

(** Descending by mean, equal means by ascending label. *)
Definition desc_by_mean_then_label (s : list (string * float Q)) : Prop :=
  StronglySorted (fun a b => fle (snd b) (snd a)
                             /\ (fle (snd a) (snd b) ->
                                 String.ltb (fst a) (fst b) = true)) s.

(** ** Regular expressions (as [str.contains] uses them)

    [Series.str.contains(pat, case=False, na=False)] has [regex=True] by
    default: [pat] is compiled as a regular expression that ignores
    letter case, and the elements in which it matches somewhere are kept.
    On an object column (pandas before 3.0) the engine is Python's [re]
    with [re.IGNORECASE]; on the Arrow-backed text column of pandas 3 it
    is RE2 with [ignore_case].  The fragment of the pattern syntax
    embedded here is read alike by both: an ordinary character stands for
    itself, [.] for any character but a newline, a backslash before a
    character that is no letter, digit or underscore for that character,
    and a backslash that ends the pattern is an error.  Text is ASCII (one
    character per [ascii], below 128): a pattern or a name with another
    character is outside the fragment, since the engines fold the case of
    such characters and count them as one. *)

Module Re.

Inductive item : Type :=
| Lit (c : ascii)     (* this character, in either case *)
| AnyChar.            (* '.' *)

Inductive pattern : Type :=
| Compiled (r : list item)
| Invalid.            (* re.compile raises re.error *)

Definition backslash : ascii := ascii_of_nat 92.
Definition newline : ascii := ascii_of_nat 10.

Definition is_ascii (c : ascii) : bool := (nat_of_ascii c <? 128)%nat.

(** The characters with a meaning of their own in a pattern. *)
Definition is_special (c : ascii) : bool :=
  existsb (Ascii.eqb c)
          (backslash :: list_ascii_of_string ".^$*+?{}[]|()").

Definition is_alnum (c : ascii) : bool :=
  let n := nat_of_ascii c in
  ((48 <=? n) && (n <=? 57) || (65 <=? n) && (n <=? 90)
   || (97 <=? n) && (n <=? 122))%nat.

(** A letter, a digit or the underscore: after a backslash such a
    character is a class, a reference or an error, depending on the
    engine. *)
Definition is_word (c : ascii) : bool := is_alnum c || Ascii.eqb c "_".

Definition lower (c : ascii) : ascii :=
  let n := nat_of_ascii c in
  if ((65 <=? n) && (n <=? 90))%nat then ascii_of_nat (n + 32) else c.

Definition cons_item (i : item) (p : option pattern) : option pattern :=
  match p with
  | Some (Compiled r) => Some (Compiled (i :: r))
  | other => other
  end.

(** Compiling a pattern: [None] for one outside the embedded fragment. *)
Fixpoint compile_chars (p : list ascii) : option pattern :=
  match p with
  | [] => Some (Compiled [])
  | c :: rest =>
      if negb (is_ascii c) then None
      else if Ascii.eqb c "." then cons_item AnyChar (compile_chars rest)
      else if Ascii.eqb c backslash then
        match rest with
        | [] => Some Invalid                    (* bad escape (end of pattern) *)
        | e :: rest' =>
            if is_word e || negb (is_ascii e) then None
            else cons_item (Lit e) (compile_chars rest')
        end
      else if is_special c then None
      else cons_item (Lit c) (compile_chars rest)
  end.

Definition compile (pat : string) : option pattern :=
  compile_chars (list_ascii_of_string pat).

(** A match of the whole pattern starting at the head of [s]. *)
Fixpoint match_here (r : list item) (s : list ascii) : bool :=
  match r, s with
  | [], _ => true
  | _ :: _, [] => false
  | Lit c :: r', x :: s' => Ascii.eqb (lower c) (lower x) && match_here r' s'
  | AnyChar :: r', x :: s' => negb (Ascii.eqb x newline) && match_here r' s'
  end.

(** Searching: a match starting anywhere in [s]. *)
Fixpoint search_chars (r : list item) (s : list ascii) : bool :=
  match_here r s
  || match s with
     | [] => false
     | _ :: s' => search_chars r s'
     end.

Definition search (r : list item) (s : string) : bool :=
  search_chars r (list_ascii_of_string s).

End Re.

(** ** The name search (lines 192-197) *)

(** The specification's reading: [term] occurs in [name] as a literal
    substring, letter case ignored. *)
Definition ci_substring (term name : string) : Prop :=
  exists pre post,
    map Re.lower (list_ascii_of_string name)
    = pre ++ map Re.lower (list_ascii_of_string term) ++ post.

(** [str.contains] on one element with [na=False]: an element that is
    not a string gives [NaN], replaced by [False]. *)
Definition str_contains (r : list Re.item) (c : cell) : bool :=
  match c with
  | CStr s => Re.search r s
  | _ => false
  end.

(** A name the search can be embedded on: ASCII text, or no text. *)
Definition ascii_name (c : cell) : bool :=
  match c with
  | CStr s => forallb Re.is_ascii (list_ascii_of_string s)
  | _ => true
  end.

(** Lines 194-197.  An empty search term is falsy: [search_df] is then
    the filtered frame itself.  Otherwise the [.str] accessor needs a text
    column ([object] stands for the dtype of text: object, or str from
    pandas 3.0), the term is compiled and the matching rows are kept.  A
    term outside the embedded pattern fragment, or a name that is not
    ASCII, is [Unsupported]. *)
Definition search_df (search_term : string) (filtered : DataFrame)
  : result DataFrame :=
  if String.eqb search_term "" then Ok filtered
  else match name_dtype filtered with
       | object =>
           if forallb (fun row => ascii_name (name row)) (rows filtered) then
             match Re.compile search_term with
             | Some (Re.Compiled r) =>
                 Ok (boolean_index (fun row => str_contains r (name row))
                                   filtered)
             | Some Re.Invalid => Raise PatternError
             | None => Unsupported
             end
           else Unsupported
       | _ => Raise AttributeError
       end.

(** ** The correlation coefficient (line 144)

    [Series.corr] drops the positions where either value is missing and
    returns [np.corrcoef(a, b)[0, 1]], computed in binary64.  Every
    operation on two floats is the IEEE one.  What the libraries leave
    open is how a whole array is added up ([np.add.reduce] adds in
    blocks) and how the inner products of [dot(X, X.T)] are accumulated
    (the BLAS may reorder and fuse): the coefficient is therefore defined
    for any two such routines ([corrcoef_01_by]), and the script's value
    [correlation] takes them to add from left to right.  Where every sum
    and product is exact (small integers) all routines agree. *)

Module Corr64.

Import Floats.
Local Open Scope float_scope.

(** An int64 value as a float64 (the nearest one; exact below 2^53). *)
Definition of_Z (z : Z) : PrimFloat.float :=
  match z with
  | Z0 => 0
  | Zpos _ => PrimFloat.of_uint63 (Uint63.of_Z z)
  | Zneg p => - PrimFloat.of_uint63 (Uint63.of_Z (Zpos p))
  end.

(** Sums are taken left to right.  (numpy and BLAS choose the order of
    the additions themselves; that order matters only where a sum is
    rounded.) *)
Definition sum (l : list PrimFloat.float) : PrimFloat.float :=
  fold_left PrimFloat.add l 0.

Definition average (l : list PrimFloat.float) : PrimFloat.float :=
  sum l / of_Z (Z.of_nat (List.length l)).

Definition center (l : list PrimFloat.float) : list PrimFloat.float :=
  map (fun x => x - average l) l.

Definition dot (a b : list PrimFloat.float) : PrimFloat.float :=
  sum (map (fun p => fst p * snd p) (combine a b)).

(** [np.clip(c, -1, 1)]; a [nan] stays. *)
Definition clip (c : PrimFloat.float) : PrimFloat.float :=
  if c <? -1 then -1 else if 1 <? c then 1 else c.

(** [np.corrcoef(x, y)[0, 1]]: [fact = n - 1], set to [0.0] when it is
    not positive; [c = dot(X, X.T) * (1 / fact)]; then
    [c /= stddev[:, None]], [c /= stddev[None, :]] and the clip. *)
Definition corrcoef_01 (x y : list PrimFloat.float) : PrimFloat.float :=
  let fact := of_Z (Z.of_nat (List.length x) - 1) in
  let fact := if fact <=? 0 then 0 else fact in
  let c01 := dot (center x) (center y) * (1 / fact) in
  let c00 := dot (center x) (center x) * (1 / fact) in
  let c11 := dot (center y) (center y) * (1 / fact) in
  clip (c01 / PrimFloat.sqrt c00 / PrimFloat.sqrt c11).

Definition valid_pairs (a b : list (option Z))
  : list (PrimFloat.float * PrimFloat.float) :=
  flat_map (fun p => match p with
                     | (Some x, Some y) => [(of_Z x, of_Z y)]
                     | _ => []
                     end) (combine a b).

(** [a.corr(b)]: [nan] when no position is left. *)
Definition series_corr (a b : list (option Z)) : PrimFloat.float :=
  match valid_pairs a b with
  | [] => PrimFloat.nan
  | ps => corrcoef_01 (map fst ps) (map snd ps)
  end.

(** *** The same computation over any summation and inner product *)

Definition is_zero (x : PrimFloat.float) : bool := x =? 0.

Section Routines.

Variable sum_by : list PrimFloat.float -> PrimFloat.float.
Variable dot_by : list PrimFloat.float -> list PrimFloat.float -> PrimFloat.float.

Definition average_by (l : list PrimFloat.float) : PrimFloat.float :=
  sum_by l / of_Z (Z.of_nat (List.length l)).

Definition center_by (l : list PrimFloat.float) : list PrimFloat.float :=
  map (fun x => x - average_by l) l.

(** One entry of the covariance matrix [c]. *)
Definition entry_by (x y : list PrimFloat.float) : PrimFloat.float :=
  let fact := of_Z (Z.of_nat (List.length x) - 1) in
  let fact := if fact <=? 0 then 0 else fact in
  dot_by (center_by x) (center_by y) * (1 / fact).

Definition corrcoef_01_by (x y : list PrimFloat.float) : PrimFloat.float :=
  let fact := of_Z (Z.of_nat (List.length x) - 1) in
  let fact := if fact <=? 0 then 0 else fact in
  let c01 := dot_by (center_by x) (center_by y) * (1 / fact) in
  let c00 := dot_by (center_by x) (center_by x) * (1 / fact) in
  let c11 := dot_by (center_by y) (center_by y) * (1 / fact) in
  clip (c01 / PrimFloat.sqrt c00 / PrimFloat.sqrt c11).

Definition series_corr_by (a b : list (option Z)) : PrimFloat.float :=
  match valid_pairs a b with
  | [] => PrimFloat.nan
  | ps => corrcoef_01_by (map fst ps) (map snd ps)
  end.

(** The column does not spread around its float64 mean: every value
    minus the computed mean is zero. *)
Definition no_spread (l : list PrimFloat.float) : bool :=
  forallb is_zero (center_by l).

End Routines.

(** A zero of either sign, or [nan]. *)
Definition zero_or_nan (x : PrimFloat.float) : Prop :=
  match Prim2SF x with
  | S754_zero _ | S754_nan => True
  | _ => False
  end.

Definition is_finite (x : PrimFloat.float) : bool :=
  match Prim2SF x with
  | S754_zero _ | S754_finite _ _ _ => true
  | _ => false
  end.

(** What the statement about a column without spread needs of an inner
    product: with a vector of zeros it yields a zero, or [nan] when the
    other vector holds an infinity or a [nan]. *)
Definition zero_dot
           (dot_by : list PrimFloat.float -> list PrimFloat.float
                     -> PrimFloat.float) : Prop :=
  forall a b, forallb is_zero a = true \/ forallb is_zero b = true ->
              zero_or_nan (dot_by a b).

(** The rational a finite float64 holds. *)
Definition to_Q (f : PrimFloat.float) : option Q :=
  match Prim2SF f with
  | S754_zero _ => Some 0%Q
  | S754_finite s m e =>
      let v := if (0 <=? e)%Z then inject_Z (Zpos m * 2 ^ e)
               else Qred (Zpos m # Z.to_pos (2 ^ (- e))) in
      Some (if s then Qopp v else v)
  | _ => None
  end.

End Corr64.

(** Line 144: [filtered_df['length_of_stay'].corr(filtered_df['satisfaction'])],
    the sums taken from left to right. *)
Definition correlation (d : DataFrame) : PrimFloat.float :=
  Corr64.series_corr (map length_of_stay (rows d))
                     (map (fun r => Some (satisfaction r)) (rows d)).

(** ** Text of integers and dates *)

(** [str(z)] *)
Definition str_of_Z (z : Z) : string := NilZero.string_of_int (Z.to_int z).

(** The integer a field holds, if it is an integer literal: an optional
    minus sign and digits (leading zeros allowed, as in the parser). *)
Definition Z_of_str (s : string) : option Z :=
  option_map Z.of_int (NilZero.int_of_string s).

Definition is_leap (y : Z) : bool :=
  ((y mod 4 =? 0) && negb (y mod 100 =? 0)) || (y mod 400 =? 0).

Definition days_in_month (y m : Z) : Z :=
  if m =? 2 then (if is_leap y then 29 else 28)
  else if (m =? 4) || (m =? 6) || (m =? 9) || (m =? 11) then 30
  else 31.

Definition valid_date (t : Timestamp) : bool :=
  (1 <=? month t) && (month t <=? 12)
  && (1 <=? day t) && (day t <=? days_in_month (year t) (month t)).

(** The whole years inside the range of a nanosecond [Timestamp]
    (1677-09-21 .. 2262-04-11). *)
Definition year_in_range (y : Z) : bool := (1678 <=? y) && (y <=? 2261).

(** Days since 1970-01-01 of a calendar date. *)
Definition days_from_civil (t : Timestamp) : Z :=
  let y := if month t <=? 2 then year t - 1 else year t in
  let era := y / 400 in
  let yoe := y - era * 400 in
  let mp := if month t <=? 2 then month t + 9 else month t - 3 in
  let doy := (153 * mp + 2) / 5 + day t - 1 in
  let doe := yoe * 365 + yoe / 4 - yoe / 100 + doy in
  era * 146097 + doe - 719468.

Definition digit (k : Z) : ascii := ascii_of_nat (Z.to_nat (48 + k)).

Definition digit_val (c : ascii) : option Z :=
  let n := Z.of_nat (nat_of_ascii c) in
  if (48 <=? n) && (n <=? 57) then Some (n - 48) else None.

(** The text of a timestamp in a column of dates: [%Y-%m-%d]. *)
Definition format_date (t : Timestamp) : string :=
  string_of_list_ascii
    [ digit (year t / 1000); digit (year t / 100 mod 10);
      digit (year t / 10 mod 10); digit (year t mod 10); "-"%char;
      digit (month t / 10); digit (month t mod 10); "-"%char;
      digit (day t / 10); digit (day t mod 10) ].

(** The numbers of a text of the shape [dddd-dd-dd]. *)
Definition iso_fields (s : string) : option Timestamp :=
  match list_ascii_of_string s with
  | [y1; y2; y3; y4; s1; m1; m2; s2; d1; d2] =>
      if Ascii.eqb s1 "-" && Ascii.eqb s2 "-" then
        match digit_val y1, digit_val y2, digit_val y3, digit_val y4,
              digit_val m1, digit_val m2, digit_val d1, digit_val d2 with
        | Some a, Some b, Some c, Some e, Some f, Some g, Some h, Some i =>
            Some (mkTimestamp (1000 * a + 100 * b + 10 * c + e)
                              (10 * f + g) (10 * h + i))
        | _, _, _, _, _, _, _, _ => None
        end
      else None
  | _ => None
  end.

(** ** The file and [pd.read_csv] (line 19)

    A file is a text; the tokenizer ([Csv.read]) splits it into a table of
    text fields, from which [read_csv] builds the frame.  The embedded
    fragment of [read_csv]: the seven required columns in the order of the
    specification, optionally followed by the derived columns of an
    earlier export; integer literals that fit int64, missing values, ISO
    dates of the years 1678..2261 and fields that are plainly text; a
    file small enough for the parser to type each column in one piece. *)

Module Csv.

Record table : Type := mkTable {
  header : list string;
  body : list (list string)
}.

Definition comma : ascii := ","%char.
Definition quote : ascii := ascii_of_nat 34.
Definition lf : ascii := ascii_of_nat 10.

(** The characters of the fragment: printable ASCII, the tab and the line
    feed.  Any other character is [outside] it: the carriage return (a
    line break to the parser, quoted by the writer or not depending on its
    version), the other control characters, and the bytes of non-ASCII
    text. *)
Definition outside (c : ascii) : bool :=
  let n := nat_of_ascii c in
  negb ((32 <=? n)%nat && (n <=? 126)%nat || (n =? 9)%nat || (n =? 10)%nat).

(** *** The text of a table

    The csv writer behind [to_csv] (quoting [QUOTE_MINIMAL], line
    terminator "\n"): fields separated by commas, a field that holds a
    comma, a quote or a line feed wrapped in quotes with its quotes
    doubled, a line feed after every record.  A field with a character
    [outside] the fragment is not [writable]. *)
Definition needs_quotes (cs : list ascii) : bool :=
  existsb (fun c => Ascii.eqb c comma || Ascii.eqb c quote || Ascii.eqb c lf) cs.

Definition escape (cs : list ascii) : list ascii :=
  flat_map (fun c => if Ascii.eqb c quote then [quote; quote] else [c]) cs.

Definition write_field (f : string) : list ascii :=
  let cs := list_ascii_of_string f in
  if needs_quotes cs then quote :: escape cs ++ [quote] else cs.

Fixpoint write_fields (fs : list string) : list ascii :=
  match fs with
  | [] => []
  | [f] => write_field f
  | f :: rest => write_field f ++ comma :: write_fields rest
  end.

Definition write_row (fs : list string) : list ascii :=
  match fs with
  | [EmptyString] => [quote; quote; lf]
  | _ => write_fields fs ++ [lf]
  end.

Definition writable (f : string) : bool :=
  negb (existsb outside (list_ascii_of_string f)).

Definition write (t : Csv.table) : option string :=
  match Csv.header t with
  | [] => None
  | _ =>
      if forallb (forallb writable) (Csv.header t :: Csv.body t)
      then Some (string_of_list_ascii
                   (flat_map write_row (Csv.header t :: Csv.body t)))
      else None
  end.

(** *** The table of a text

    The tokenizer of [read_csv] as a machine that reads one character at a
    time: at the start of a field, inside an unquoted field, inside a
    quoted field, or after the quote that may close one.  Empty lines are
    skipped.  [None] marks a text outside the fragment: a character
    [outside] it, a quote inside an unquoted field, text after a closing
    quote, a line of blanks only (the parser skips it), no record at
    all. *)
Inductive mode : Type := AtStart | Unquoted | Quoted | Closed.

Definition end_field (cur : list ascii) (fields : list string) : list string :=
  string_of_list_ascii (rev cur) :: fields.

Definition blank (c : ascii) : bool :=
  Ascii.eqb c " " || Ascii.eqb c (ascii_of_nat 9).

(** The record that ends here; [None] for a line of blanks only. *)
Definition end_record (cur : list ascii) (fields : list string)
           (rows : list (list string)) : option (list (list string)) :=
  match fields with
  | [] => if forallb blank cur then None else Some ([string_of_list_ascii (rev cur)] :: rows)
  | _ => Some (rev (end_field cur fields) :: rows)
  end.

Fixpoint tokenize (cs : list ascii) (m : mode) (cur : list ascii)
         (fields : list string) (rows : list (list string))
  : option (list (list string)) :=
  match cs with
  | [] =>
      match m with
      | Quoted => None
      | AtStart =>
          match fields with
          | [] => Some (rev rows)
          | _ => Some (rev (rev (end_field [] fields) :: rows))
          end
      | Unquoted => option_map (@rev _) (end_record cur fields rows)
      | Closed => Some (rev (rev (end_field cur fields) :: rows))
      end
  | c :: rest =>
      if outside c then None
      else
        match m with
        | AtStart =>
            if Ascii.eqb c quote then tokenize rest Quoted [] fields rows
            else if Ascii.eqb c comma
                 then tokenize rest AtStart [] (end_field [] fields) rows
            else if Ascii.eqb c lf then
              match fields with
              | [] => tokenize rest AtStart [] [] rows
              | _ => tokenize rest AtStart [] []
                              (rev (end_field [] fields) :: rows)
              end
            else tokenize rest Unquoted [c] fields rows
        | Unquoted =>
            if Ascii.eqb c quote then None
            else if Ascii.eqb c comma
                 then tokenize rest AtStart [] (end_field cur fields) rows
            else if Ascii.eqb c lf then
              match end_record cur fields rows with
              | Some rows' => tokenize rest AtStart [] [] rows'
              | None => None
              end
            else tokenize rest Unquoted (c :: cur) fields rows
        | Quoted =>
            if Ascii.eqb c quote then tokenize rest Closed cur fields rows
            else tokenize rest Quoted (c :: cur) fields rows
        | Closed =>
            if Ascii.eqb c quote then tokenize rest Quoted (quote :: cur) fields rows
            else if Ascii.eqb c comma
                 then tokenize rest AtStart [] (end_field cur fields) rows
            else if Ascii.eqb c lf
                 then tokenize rest AtStart [] []
                               (rev (end_field cur fields) :: rows)
            else None
        end
  end.

Definition read (txt : string) : option Csv.table :=
  match tokenize (list_ascii_of_string txt) AtStart [] [] [] with
  | Some (h :: b) => Some (Csv.mkTable h b)
  | _ => None
  end.

End Csv.

Definition base_columns : list string :=
  [ "patient_id"; "name"; "age"; "service"; "arrival_date"; "departure_date";
    "satisfaction" ]%string.

(** The fields [read_csv] reads as a missing value. *)
Definition na_values : list string :=
  [ ""; "#N/A"; "#N/A N/A"; "#NA"; "-1.#IND"; "-1.#QNAN"; "-NaN"; "-nan";
    "1.#IND"; "1.#QNAN"; "<NA>"; "N/A"; "NA"; "NULL"; "NaN"; "n/a"; "nan";
    "null" ]%string.

Definition is_na (f : string) : bool := existsb (String.eqb f) na_values.

Definition is_int (f : string) : bool :=
  match Z_of_str f with Some _ => true | None => false end.

Definition is_letter (c : ascii) : bool :=
  let n := nat_of_ascii c in
  ((65 <=? n) && (n <=? 90) || (97 <=? n) && (n <=? 122))%nat.

Definition lower_string (s : string) : string :=
  string_of_list_ascii (map Re.lower (list_ascii_of_string s)).

(** A field without its leading sign. *)
Definition strip_sign (f : string) : string :=
  match f with
  | String c rest => if Ascii.eqb c "-" || Ascii.eqb c "+" then rest else f
  | EmptyString => f
  end.

(** A field that is plainly text, whatever else its column holds: it has
    a letter other than [e] (so it is no integer and no float literal,
    whose only letter is the exponent mark), it is no missing value, and
    it is none of the words the parser reads as a missing value, a boolean
    or an infinity, in any letter case and with or without a sign; and
    all its characters are of the fragment. *)
Definition text_like (f : string) : bool :=
  existsb (fun c => is_letter c && negb (Ascii.eqb (Re.lower c) "e"))
          (list_ascii_of_string f)
  && Csv.writable f
  && negb (is_na f)
  && negb (existsb (String.eqb (lower_string (strip_sign f)))
             [ "na"; "nan"; "null"; "none"; "n/a"; "true"; "false"; "inf";
               "infinity" ]%string).

(** The dtype inferred for a column of fields; [None] outside the
    fragment (floats, booleans, integers mixed with missing values). *)
Definition infer (fields : list string) : option dtype :=
  match fields with
  | [] => Some object
  | _ =>
      if forallb is_na fields then Some float64
      else if forallb is_int fields then Some int64
      else if forallb (fun f => is_na f || is_int f || text_like f) fields
              && existsb text_like fields then Some object
      else None
  end.

(** The value of a field in a column of the given dtype. *)
Definition cell_of (t : dtype) (f : string) : cell :=
  match t with
  | int64 => match Z_of_str f with Some z => CInt z | None => CNaN end
  | float64 => CNaN
  | object => if is_na f then CNaN else CStr f
  end.

(** A field of a date column: missing, or an ISO date kept as text. *)
Definition date_cell (f : string) : option date_value :=
  if is_na f then Some NaT
  else match iso_fields f with
       | Some t => if year_in_range (year t) then Some (DateText f) else None
       | None => None
       end.

Definition label_text (g : option AgeLabel) : string :=
  match g with
  | None => ""
  | Some L0_18 => "0-18"
  | Some L19_35 => "19-35"
  | Some L36_50 => "36-50"
  | Some L51_65 => "51-65"
  | Some L65plus => "65+"
  end.

Definition label_cell (f : string) : option (option AgeLabel) :=
  if is_na f then Some None
  else find (fun g => String.eqb f (label_text g)) (map Some age_labels).

(** The derived columns of an earlier export, as far as they are read:
    the text of [length_of_stay] is overwritten by [load_data] and never
    read. *)
Definition read_extras (extras fields : list string)
  : option (option AgeLabel) :=
  match extras, fields with
  | [], [] => Some None
  | [los], [_] => if String.eqb los "length_of_stay" then Some None else None
  | [los; ag], [_; f] =>
      if String.eqb los "length_of_stay" && String.eqb ag "age_group"
      then label_cell f else None
  | _, _ => None
  end.

Definition read_row (id_t name_t : dtype) (extras fields : list string)
  : option Row :=
  match fields with
  | f_id :: f_name :: f_age :: f_service :: f_arr :: f_dep :: f_sat :: rest =>
      match Z_of_str f_age, Z_of_str f_sat, date_cell f_arr, date_cell f_dep,
            read_extras extras rest with
      | Some a, Some s, Some arr, Some dep, Some g =>
          if text_like f_service then
            Some (mkRow (cell_of id_t f_id) (cell_of name_t f_name) a
                        f_service arr dep s None g)
          else None
      | _, _, _, _, _ => None
      end
  | _ => None
  end.

Fixpoint read_rows (id_t name_t : dtype) (extras : list string)
         (body : list (list string)) : option (list Row) :=
  match body with
  | [] => Some []
  | fields :: rest =>
      match read_row id_t name_t extras fields,
            read_rows id_t name_t extras rest with
      | Some r, Some rs => Some (r :: rs)
      | _, _ => None
      end
  end.

(** The fields of column [i]. *)
Definition column (i : nat) (body : list (list string)) : list string :=
  map (fun fields => nth i fields EmptyString) body.

Definition read_csv (t : Csv.table) : result DataFrame :=
  let extras := skipn 7 (Csv.header t) in
  if list_eq_dec string_dec (firstn 7 (Csv.header t)) base_columns then
    match infer (column 0 (Csv.body t)), infer (column 1 (Csv.body t)) with
    | Some id_t, Some name_t =>
        match read_rows id_t name_t extras (Csv.body t) with
        | Some rs => Ok (mkDataFrame (Csv.header t) name_t int64 rs)
        | None => Unsupported
        end
    | _, _ => Unsupported
    end
  else Unsupported.

(** ** [load_data] (lines 17-24) *)

Definition bind {A B : Type} (r : result A) (k : A -> result B) : result B :=
  match r with
  | Ok a => k a
  | Raise e => Raise e
  | Unsupported => Unsupported
  end.

Declare Scope result_scope.
Delimit Scope result_scope with result.
Notation "x <- r ;; k" := (bind r (fun x => k))
  (at level 61, r at next level, right associativity) : result_scope.
Local Open Scope result_scope.

(** [pd.to_datetime] on one element: a missing value becomes [NaT], an
    ISO date is parsed, a date that does not exist raises. *)
Definition to_datetime (v : date_value) : result date_value :=
  match v with
  | NaT => Ok NaT
  | Date t => Ok (Date t)
  | DateText s =>
      match iso_fields s with
      | Some t =>
          if year_in_range (year t) then
            if valid_date t then Ok (Date t) else Raise ValueError
          else Unsupported
      | None => Unsupported
      end
  end.

Fixpoint map_result {A B : Type} (f : A -> result B) (l : list A)
  : result (list B) :=
  match l with
  | [] => Ok []
  | x :: xs => y <- f x ;; ys <- map_result f xs ;; Ok (y :: ys)
  end.

Definition set_dates (r : Row) (arr dep : date_value) : Row :=
  mkRow (patient_id r) (name r) (age r) (service r) arr dep
        (satisfaction r) (length_of_stay r) (age_group r).

Definition set_length_of_stay (r : Row) (v : option Z) : Row :=
  mkRow (patient_id r) (name r) (age r) (service r) (arrival_date r)
        (departure_date r) (satisfaction r) v (age_group r).

(** [(departure - arrival).dt.days]: [NaN] when either date is [NaT]. *)
Definition stay (r : Row) : option Z :=
  match arrival_date r, departure_date r with
  | Date a, Date b => Some (days_from_civil b - days_from_civil a)
  | _, _ => None
  end.

(** Lines 21-23 on the frame [read_csv] returned.  The arrival column is
    converted first, then the departure column; the [length_of_stay]
    column is int64 unless a stay is missing. *)
Definition derive (d : DataFrame) : result DataFrame :=
  arr <- map_result (fun r => to_datetime (arrival_date r)) (rows d) ;;
  dep <- map_result (fun r => to_datetime (departure_date r)) (rows d) ;;
  let rs := map (fun x => set_dates (fst x) (fst (snd x)) (snd (snd x)))
                (combine (rows d) (combine arr dep)) in
  let rs := map (fun r => set_length_of_stay r (stay r)) rs in
  Ok (mkDataFrame (setitem_columns (columns d) "length_of_stay")
                  (name_dtype d)
                  (if forallb (fun r => match length_of_stay r with
                                        | Some _ => true
                                        | None => false
                                        end) rs
                   then int64 else float64)
                  rs).

(** [load_data()]; the argument is the content of [patients.csv] as the
    tokenizer splits it, [None] when there is no such file. *)
Definition load_data (file : option Csv.table) : result DataFrame :=
  match file with
  | None => Raise FileNotFoundError
  | Some t => d <- read_csv t ;; derive d
  end.

(** A file of at most 2^15 records: the parser types each of its columns
    in one piece.  (A longer file is typed piece by piece, and a column
    that mixes digits and text may then hold both integers and strings.) *)
Definition one_piece (t : Csv.table) : bool :=
  Z.of_nat (List.length (Csv.body t)) <=? 2 ^ 15.

Definition in_int64 (z : Z) : bool := (- 2 ^ 63 <=? z) && (z <? 2 ^ 63).

(** A field that is no integer literal, or one that fits int64.  (A
    literal that does not makes the parser give up int64 for the whole
    column.) *)
Definition fits_int64 (f : string) : bool :=
  match Z_of_str f with
  | Some z => in_int64 z
  | None => true
  end.

(** The fields of the columns read as integers or typed by their
    content (identifier, name, age, satisfaction) fit int64. *)
Definition int64_fields (t : Csv.table) : bool :=
  forallb (fun fields =>
             forallb (fun i => fits_int64 (nth i fields EmptyString))
                     [0; 1; 2; 6]%nat)
          (Csv.body t).

(** [load_data()] on the text of [patients.csv]. *)
Definition load_data_text (file : option string) : result DataFrame :=
  match file with
  | None => Raise FileNotFoundError
  | Some txt =>
      match Csv.read txt with
      | Some t =>
          if one_piece t && int64_fields t then load_data (Some t)
          else Unsupported
      | None => Unsupported
      end
  end.

(** ** The export (line 206) *)

Definition cell_text (c : cell) : string :=
  match c with
  | CInt z => str_of_Z z
  | CStr s => s
  | CNaN => ""
  end.

Definition date_text (v : date_value) : string :=
  match v with
  | DateText s => s
  | Date t => format_date t
  | NaT => ""
  end.

(** A float64 column prints its integers with a trailing [.0]. *)
Definition stay_text (t : dtype) (v : option Z) : string :=
  match v with
  | None => ""
  | Some z => match t with
              | float64 => str_of_Z z ++ ".0"
              | _ => str_of_Z z
              end
  end.

Definition field_text (d : DataFrame) (r : Row) (col : string) : string :=
  if String.eqb col "patient_id" then cell_text (patient_id r)
  else if String.eqb col "name" then cell_text (name r)
  else if String.eqb col "age" then str_of_Z (age r)
  else if String.eqb col "service" then service r
  else if String.eqb col "arrival_date" then date_text (arrival_date r)
  else if String.eqb col "departure_date" then date_text (departure_date r)
  else if String.eqb col "satisfaction" then str_of_Z (satisfaction r)
  else if String.eqb col "length_of_stay"
       then stay_text (length_of_stay_dtype d) (length_of_stay r)
  else if String.eqb col "age_group" then label_text (age_group r)
  else "".

(** [d.to_csv(index=False)]: the header and one line of fields per row,
    in column order. *)
Definition to_csv (d : DataFrame) : Csv.table :=
  Csv.mkTable (columns d)
              (map (fun r => map (field_text d r) (columns d)) (rows d)).

(** The text [to_csv] returns, the content of the downloaded file;
    [None] when a field is not [writable]. *)
Definition to_csv_text (d : DataFrame) : option string :=
  Csv.write (to_csv d).

(** The columns of the frame the script exports: the input columns and
    the two derived ones. *)
Definition export_columns : list string :=
  base_columns ++ ["length_of_stay"; "age_group"]%string.

(** ** The script

    One run of the script is a computation over the frames it holds and
    the page it renders.  A frame is an object: [filtered_df] names the
    object the boolean indexing created, line 173 changes that object,
    and [search_df] names either the same object (empty search term) or a
    new one. *)

(** What the page shows.  Layout, titles and chart styling carry no data
    and are left out, as is the [describe()] table of line 226. *)
Inductive note : Type :=
| positive_correlation
| negative_correlation
| no_clear_correlation.

Inductive element : Type :=
| sidebar_markdown (filtered_records total_records : Z)     (* lines 71-72 *)
| metric_average_satisfaction (v : float Q)                 (* line 85 *)
| metric_average_stay (v : float Q)                         (* line 89 *)
| metric_total_patients (n : Z)                             (* line 93 *)
| metric_most_common_service (s : string)                   (* line 97 *)
| bar_chart (bars : list (string * float Q))                (* lines 105-118 *)
| insight (highest lowest : string * float Q)               (* lines 121-125 *)
| scatter (points : list (option Z * Z))                    (* lines 134-141 *)
| metric_correlation (c : PrimFloat.float)                  (* line 145 *)
| correlation_note (n : note)                               (* lines 147-152 *)
| histogram (ages : list Z)                                 (* lines 161-167 *)
| line_chart (points : list (AgeLabel * float Q))           (* lines 180-186 *)
| dataframe (table : list (cell * cell * Z * string * option Z * Z))
                                                            (* lines 200-203 *)
| download_button (csv : Csv.table)                         (* lines 207-212 *)
| write_service_counts (counts : list (string * Z)).        (* line 222 *)

(** Lines 147-152: every comparison with [nan] is false. *)
Definition note_of (c : PrimFloat.float) : note :=
  if PrimFloat.ltb PrimFloat.zero c then positive_correlation
  else if PrimFloat.ltb c PrimFloat.zero then negative_correlation
  else no_clear_correlation.

Record State : Type := mkState {
  heap : list DataFrame;      (* the frame objects, by reference *)
  page : list element         (* the elements rendered so far, in order *)
}.

Definition M (A : Type) : Type := State -> State * result A.

Definition ret {A : Type} (a : A) : M A := fun s => (s, Ok a).

Definition bindM {A B : Type} (m : M A) (k : A -> M B) : M B :=
  fun s => match m s with
           | (s', Ok a) => k a s'
           | (s', Raise e) => (s', Raise e)
           | (s', Unsupported) => (s', Unsupported)
           end.

Declare Scope script_scope.
Delimit Scope script_scope with script.
Notation "x <- m ;; k" := (bindM m (fun x => k))
  (at level 61, m at next level, right associativity) : script_scope.
Notation "m ;; k" := (bindM m (fun _ => k))
  (at level 61, right associativity) : script_scope.

(** An expression that may raise. *)
Definition lift {A : Type} (r : result A) : M A := fun s => (s, r).

(** A new frame object; its reference is its position in the heap. *)
Definition alloc (d : DataFrame) : M nat :=
  fun s => (mkState (heap s ++ [d]) (page s), Ok (List.length (heap s))).

Definition deref (ref : nat) : M DataFrame :=
  fun s => (s, match nth_error (heap s) ref with
               | Some d => Ok d
               | None => Unsupported
               end).

Fixpoint update {A : Type} (l : list A) (i : nat) (x : A) : list A :=
  match l, i with
  | [], _ => []
  | _ :: t, O => x :: t
  | h :: t, S j => h :: update t j x
  end.

(** [frame['age_group'] = pd.cut(frame['age'], ...)] on the object
    behind [ref] (line 173). *)
Definition setitem_age_group (ref : nat) : M unit :=
  fun s => match nth_error (heap s) ref with
           | Some d => (mkState (update (heap s) ref (assign_age_group d))
                                (page s), Ok tt)
           | None => (s, Unsupported)
           end.

(** [st.metric], [st.pyplot], [st.write], ...: one more element. *)
Definition st (e : element) : M unit :=
  fun s => (mkState (heap s) (page s ++ [e]), Ok tt).

(** The widget values of one run. *)
Record Widgets : Type := mkWidgets {
  criteria : Criteria;
  search_term : string
}.

(** Lines 47-52: [int(df['age'].min())] and [int(df['age'].max())] for the
    slider; on a store without rows the minimum is [nan] and [int] raises.
    (The validation the widgets do themselves is Streamlit's and is not
    embedded.) *)
Definition slider_bounds (df : DataFrame) : result (Z * Z) :=
  match map age (rows df) with
  | [] => Raise ValueError
  | a :: l => Ok (fold_right Z.min a l, fold_right Z.max a l)
  end.

(** [search_df[['patient_id', 'name', 'age', 'service', 'length_of_stay',
    'satisfaction']]] *)
Definition selected_columns (d : DataFrame)
  : list (cell * cell * Z * string * option Z * Z) :=
  map (fun r => (patient_id r, name r, age r, service r, length_of_stay r,
                 satisfaction r)) (rows d).

Section Script.

Variable observed : bool.
Variable argsort_f64 : list Q -> list nat.
Variable argsort_i64 : list Z -> list nat.

Local Open Scope script_scope.

(** Lines 77-125. *)
Definition tab1 (filtered : nat) : M unit :=
  f <- deref filtered ;;
  st (metric_average_satisfaction (avg_satisfaction f)) ;;
  st (metric_average_stay (avg_stay f)) ;;
  st (metric_total_patients (total_patients f)) ;;
  mcs <- lift (most_common_service f) ;;
  st (metric_most_common_service mcs) ;;
  let ss := service_satisfaction argsort_f64 f in
  st (bar_chart ss) ;;
  highest <- lift (first ss) ;;
  lowest <- lift (last_item ss) ;;
  st (insight highest lowest).

(** Lines 127-152. *)
Definition tab2 (filtered : nat) : M unit :=
  f <- deref filtered ;;
  st (scatter (map (fun r => (length_of_stay r, satisfaction r)) (rows f))) ;;
  let c := correlation f in
  st (metric_correlation c) ;;
  st (correlation_note (note_of c)).

(** Lines 154-186. *)
Definition tab3 (filtered : nat) : M unit :=
  f <- deref filtered ;;
  st (histogram (map age (rows f))) ;;
  setitem_age_group filtered ;;
  f <- deref filtered ;;
  st (line_chart (age_group_satisfaction observed f)).

(** Lines 188-212. *)
Definition tab4 (filtered : nat) (term : string) : M unit :=
  search <- (if String.eqb term ""
             then ret filtered
             else f <- deref filtered ;;
                  d <- lift (search_df term f) ;;
                  alloc d) ;;
  sd <- deref search ;;
  st (dataframe (selected_columns sd)) ;;
  st (download_button (to_csv sd)).

(** Lines 214-226. *)
Definition footer (filtered : nat) : M unit :=
  f <- deref filtered ;;
  st (write_service_counts (service_counts argsort_i64 f)).

(** The script after line 27, [df] being the reference of the loaded
    frame. *)
Definition body (df : nat) (w : Widgets) : M unit :=
  store <- deref df ;;
  lift (slider_bounds store) ;;
  filtered <- alloc (filtered_df (criteria w) store) ;;
  f <- deref filtered ;;
  st (sidebar_markdown (len f) (len store)) ;;
  tab1 filtered ;;
  tab2 filtered ;;
  tab3 filtered ;;
  tab4 filtered (search_term w) ;;
  footer filtered.

(** [@st.cache_data] on [load_data]: the function takes no argument, so
    the cache has one entry; a call finds it or runs the function and
    stores what it returned (an exception stores nothing).  The caller
    gets a copy. *)
Definition cached_load_data (cache : option DataFrame)
           (file : option Csv.table) : option DataFrame * result DataFrame :=
  match cache with
  | Some d => (cache, Ok d)
  | None =>
      match load_data file with
      | Ok d => (Some d, Ok d)
      | other => (None, other)
      end
  end.

(** One run of the script: the cache a session holds, the content of
    [patients.csv] and the widget values in; the cache, the frames, the
    page and the way the run ended out. *)
Definition run (cache : option DataFrame) (file : option Csv.table)
           (w : Widgets) : option DataFrame * (State * result unit) :=
  match cached_load_data cache file with
  | (cache', Ok d) => (cache', body 0 w (mkState [d] []))
  | (cache', Raise e) => (cache', (mkState [] [], Raise e))
  | (cache', Unsupported) => (cache', (mkState [] [], Unsupported))
  end.

(** The caches a session can hold while [patients.csv] has the content
    [file]: none, or the one a run over that content left. *)
Inductive cache_of (file : option Csv.table) : option DataFrame -> Prop :=
| cache_empty : cache_of file None
| cache_after_run cache w :
    cache_of file cache -> cache_of file (fst (run cache file w)).

End Script.

(** ** Vocabulary of the round trip through the file *)

Definition option_Z_eqb (a b : option Z) : bool :=
  match a, b with
  | Some x, Some y => x =? y
  | None, None => true
  | _, _ => false
  end.

(** A date of a loaded frame: [NaT] or a calendar date of a year in
    range. *)
Definition date_ok (v : date_value) : bool :=
  match v with
  | NaT => true
  | Date t => valid_date t && year_in_range (year t)
  | DateText _ => false
  end.

(** A row as [load_data] builds it from a file of the embedded fragment:
    the service is text, the dates are dates, the stay is the one the
    dates give. *)
Definition exportable (r : Row) : bool :=
  text_like (service r)
  && date_ok (arrival_date r) && date_ok (departure_date r)
  && option_Z_eqb (length_of_stay r) (stay r).

(** A row whose integers, and whose texts that read as integers, fit
    int64. *)
Definition cell_fits (c : cell) : bool :=
  match c with
  | CInt z => in_int64 z
  | CStr s => fits_int64 s
  | CNaN => true
  end.

Definition row_fits (r : Row) : bool :=
  cell_fits (patient_id r) && cell_fits (name r)
  && in_int64 (age r) && in_int64 (satisfaction r).

(** A column of identifiers or names that comes back from the file with
    the type and the values it had: integers only; missing values only;
    or strings and missing values, each string plainly text or an integer
    literal, and at least one of them plainly text (a column whose strings
    all are integer literals, such as "001", is read back as integers). *)
Definition stable_column (cs : list cell) : bool :=
  forallb (fun c => match c with CInt _ => true | _ => false end) cs
  || forallb (fun c => match c with CNaN => true | _ => false end) cs
  || (forallb (fun c => match c with
                        | CStr s => is_int s || text_like s
                        | CNaN => true
                        | CInt _ => false
                        end) cs
      && existsb (fun c => match c with
                           | CStr s => text_like s
                           | _ => false
                           end) cs).

(** The view the script exports for the given selection, store as
    loaded. *)
Definition exported_view (c : Criteria) (df : DataFrame) : DataFrame :=
  assign_age_group (filtered_df c df).

(** What [read_csv] reads where the export printed a date, and a row. *)
Definition as_read (v : date_value) : date_value :=
  match v with
  | Date t => DateText (format_date t)
  | other => other
  end.

Definition row_as_read (r : Row) : Row :=
  mkRow (patient_id r) (name r) (age r) (service r)
        (as_read (arrival_date r)) (as_read (departure_date r))
        (satisfaction r) None (age_group r).

(** ** Sample frames *)

(** Two services seen once each. *)
Definition tied_services : DataFrame :=
  mkDataFrame (base_columns ++ ["length_of_stay"]%string) object int64
    [ mkRow (CInt 1) (CStr "Ann") 30 "Surgery" NaT NaT 70 None None;
      mkRow (CInt 2) (CStr "Bob") 40 "Cardiology" NaT NaT 80 None None ].

(** Two services with the same mean satisfaction. *)
Definition equal_means : DataFrame :=
  mkDataFrame (base_columns ++ ["length_of_stay"]%string) object int64
    [ mkRow (CInt 1) (CStr "Ann") 30 "Cardiology" NaT NaT 70 None None;
      mkRow (CInt 2) (CStr "Bob") 40 "Surgery" NaT NaT 70 None None ].

(** One patient per age bucket, satisfaction rising with age; the frame
    as it is after line 173. *)
Definition one_per_bucket : DataFrame :=
  assign_age_group
    (mkDataFrame (base_columns ++ ["length_of_stay"]%string) object int64
       [ mkRow (CInt 1) (CStr "Ann") 10 "Surgery" NaT NaT 10 None None;
         mkRow (CInt 2) (CStr "Bob") 30 "Surgery" NaT NaT 20 None None;
         mkRow (CInt 3) (CStr "Cid") 40 "Cardiology" NaT NaT 30 None None;
         mkRow (CInt 4) (CStr "Dee") 60 "Cardiology" NaT NaT 40 None None;
         mkRow (CInt 5) (CStr "Eve") 70 "Oncology" NaT NaT 50 None None ]).

(** A small file: string identifiers, a newborn, a centenarian with no
    name and no arrival date. *)
Definition patients_csv : Csv.table :=
  Csv.mkTable base_columns
    [ ["001"; "Ann Lee"; "30"; "Surgery"; "2024-01-05"; "2024-01-09"; "70"];
      ["A02"; "Bob"; "0"; "Cardiology"; "2024-02-27"; "2024-03-01"; "80"];
      ["A03"; ""; "101"; "Cardiology"; ""; "2024-03-01"; "90"] ]%string.

(** The text of that file. *)
Definition patients_txt : string :=
  "patient_id,name,age,service,arrival_date,departure_date,satisfaction
001,Ann Lee,30,Surgery,2024-01-05,2024-01-09,70
A02,Bob,0,Cardiology,2024-02-27,2024-03-01,80
A03,,101,Cardiology,,2024-03-01,90
".

(** The same file after one more patient was added. *)
Definition patients_csv_later : Csv.table :=
  Csv.mkTable base_columns
    (Csv.body patients_csv
     ++ [ ["A04"; "Dee"; "55"; "Surgery"; "2024-03-02"; "2024-03-03"; "60"] ]%string).

(** Every service selected, every age, no floor, no search. *)
Definition all_selected : Widgets :=
  mkWidgets (mkCriteria ["Surgery"; "Cardiology"]%string (0, 101) 0) "".

(** The user cleared the service multiselect. *)
Definition none_selected : Widgets :=
  mkWidgets (mkCriteria [] (0, 101) 0) "".

(** Only "Surgery" selected. *)
Definition surgery_selected : Widgets :=
  mkWidgets (mkCriteria ["Surgery"]%string (0, 101) 0) "".

(** The store [load_data] builds from [patients_csv]. *)
Definition patients : DataFrame :=
  match load_data (Some patients_csv) with
  | Ok d => d
  | _ => mkDataFrame [] object int64 []
  end.

(** Three patients: stays of 0, 0 and 3 days, satisfaction 0, 5 and 7. *)
Definition three_stays : DataFrame :=
  mkDataFrame (base_columns ++ ["length_of_stay"]%string) object int64
    [ mkRow (CInt 1) (CStr "Ann") 30 "Surgery"
            (Date (mkTimestamp 2024 1 5)) (Date (mkTimestamp 2024 1 5))
            0 (Some 0) None;
      mkRow (CInt 2) (CStr "Bob") 40 "Surgery"
            (Date (mkTimestamp 2024 1 6)) (Date (mkTimestamp 2024 1 6))
            5 (Some 0) None;
      mkRow (CInt 3) (CStr "Cid") 50 "Surgery"
            (Date (mkTimestamp 2024 1 7)) (Date (mkTimestamp 2024 1 10))
            7 (Some 3) None ].

(** Three patients with the same, very large, satisfaction. *)
Definition constant_scores : DataFrame :=
  mkDataFrame (base_columns ++ ["length_of_stay"]%string) object int64
    [ mkRow (CInt 1) (CStr "Ann") 30 "Surgery"
            (Date (mkTimestamp 2024 1 5)) (Date (mkTimestamp 2024 1 6))
            7000000000000002 (Some 1) None;
      mkRow (CInt 2) (CStr "Bob") 40 "Surgery"
            (Date (mkTimestamp 2024 1 6)) (Date (mkTimestamp 2024 1 8))
            7000000000000002 (Some 2) None;
      mkRow (CInt 3) (CStr "Cid") 50 "Surgery"
            (Date (mkTimestamp 2024 1 7)) (Date (mkTimestamp 2024 1 10))
            7000000000000002 (Some 3) None ].

(* ================================================================== *)
(** * Part II: properties                                               *)
(* ================================================================== *)

(** ** The filter *)

Lemma isin_In s values : isin s values = true <-> In s values.
Proof.
  unfold isin. rewrite existsb_exists. split.
  - intros [x [Hx He]]. apply String.eqb_eq in He. now subst.
  - intros H. exists s. split; [assumption | apply String.eqb_refl].
Qed.

Lemma mask_spec c r :
  mask c r = true <->
  In (service r) (services c)
  /\ fst (age_range c) <= age r <= snd (age_range c)
  /\ satisfaction r >= min_satisfaction c.
Proof.
  unfold mask. rewrite !andb_true_iff, !Z.leb_le, isin_In. intuition lia.
Qed.

Lemma filter_Subseq {A} (f : A -> bool) (l : list A) : Subseq (filter f l) l.
Proof.
  induction l as [|x l IH]; simpl.
  - constructor.
  - destruct (f x); now constructor.
Qed.

Lemma filter_none {A} (f : A -> bool) (l : list A) :
  (forall x, In x l -> f x = false) -> filter f l = [].
Proof.
  induction l as [|x l IH]; simpl; intros H; [reflexivity|].
  rewrite (H x (or_introl eq_refl)). apply IH. intros y Hy. apply H. now right.
Qed.

(** C2.  A row is in the filtered frame iff it is in the store, its service
    is one of the selected services, its age lies in the inclusive age
    range and its satisfaction is at least the minimum; with no service
    selected no row passes; the filtered rows are a subsequence of the
    store's rows (relative order kept); and a selection no row matches
    gives the empty frame (the filter is a total function, it raises
    nothing). *)
Theorem C2_filtered_df_spec (c : Criteria) (df : DataFrame) :
  (forall r, In r (rows (filtered_df c df)) <->
     In r (rows df)
     /\ In (service r) (services c)
     /\ fst (age_range c) <= age r <= snd (age_range c)
     /\ satisfaction r >= min_satisfaction c)
  /\ rows (filtered_df (mkCriteria [] (age_range c) (min_satisfaction c)) df) = []
  /\ Subseq (rows (filtered_df c df)) (rows df)
  /\ rows (filtered_df c df) = filter (mask c) (rows df)
  /\ (rows (filtered_df c df) = [] <->
      forall r, In r (rows df) -> mask c r = false)
  /\ columns (filtered_df c df) = columns df
  /\ name_dtype (filtered_df c df) = name_dtype df
  /\ length_of_stay_dtype (filtered_df c df) = length_of_stay_dtype df.
Proof.
  unfold filtered_df, boolean_index; simpl.
  split; [|split; [|split; [|split; [|split; [|split; [|split]]]]]].
  - intros r. rewrite filter_In, mask_spec. tauto.
  - apply filter_none. intros x _. reflexivity.
  - apply filter_Subseq.
  - reflexivity.
  - split; [|apply filter_none].
    intros Hnil r Hin. destruct (mask c r) eqn:E; [|reflexivity].
    assert (Hf : In r (filter (mask c) (rows df))) by (apply filter_In; tauto).
    rewrite Hnil in Hf. destruct Hf.
  - reflexivity.
  - reflexivity.
  - reflexivity.
Qed.

(** ** Age groups *)

Lemma age_group_of_inside (a : Z) :
  1 <= a <= 100 -> age_group_of a = spec_age_group a.
Proof.
  intros H. unfold age_group_of, spec_age_group, cut, age_bins, age_labels.
  cbn [searchsorted_left].
  destruct (Z.ltb_spec a 0); [lia|].
  destruct (Z.ltb_spec 0 a); [|lia].
  destruct (Z.ltb_spec 18 a), (Z.leb_spec a 18); try lia; [|reflexivity].
  destruct (Z.ltb_spec 35 a), (Z.leb_spec a 35); try lia; [|reflexivity].
  destruct (Z.ltb_spec 50 a), (Z.leb_spec a 50); try lia; [|reflexivity].
  destruct (Z.ltb_spec 65 a), (Z.leb_spec a 65); try lia; [|reflexivity].
  destruct (Z.ltb_spec 100 a); [lia|reflexivity].
Qed.

Lemma age_group_of_outside (a : Z) :
  a <= 0 \/ 100 < a -> age_group_of a = None.
Proof.
  intros H. unfold age_group_of, cut, age_bins, age_labels.
  cbn [searchsorted_left].
  destruct (Z.ltb_spec 0 a); [|reflexivity].
  destruct (Z.ltb_spec 18 a); [|lia].
  destruct (Z.ltb_spec 35 a); [|lia].
  destruct (Z.ltb_spec 50 a); [|lia].
  destruct (Z.ltb_spec 65 a); [|lia].
  destruct (Z.ltb_spec 100 a); [reflexivity|lia].
Qed.

(** C3.  The code's [pd.cut] leaves two parts of the specified partition
    without a bucket: age 0, which the partition puts in [0,18] (and the
    code's own label '0-18' names), and every age above 100, which the
    partition puts in the unbounded last bucket (label '65+').  Both get
    [NaN]; on the ages 1..100 the code and the partition agree
    ([age_group_of_inside]). *)
Theorem C3_age_group_of_misses_0_and_over_100 :
  age_group_of 0 = None /\ spec_age_group 0 = Some L0_18
  /\ age_group_of 101 = None /\ spec_age_group 101 = Some L65plus
  /\ age_group_of 1 = Some L0_18 /\ age_group_of 100 = Some L65plus.
Proof. repeat split. Qed.

(** ** Sorting *)

Section SortFacts.
Context {A : Type} (leb : A -> A -> bool).
Hypothesis leb_total : forall a b, leb a b = true \/ leb b a = true.
Hypothesis leb_trans : forall a b c, leb a b = true -> leb b c = true -> leb a c = true.

Lemma insert_sorted_perm (x : A) (l : list A) :
  Permutation (insert_sorted leb x l) (x :: l).
Proof.
  induction l as [|y l IH]; simpl.
  - apply Permutation_refl.
  - destruct (leb x y).
    + apply Permutation_refl.
    + eapply perm_trans; [apply perm_skip, IH | apply perm_swap].
Qed.

Lemma insertion_sort_perm (l : list A) : Permutation (insertion_sort leb l) l.
Proof.
  induction l as [|x l IH]; simpl.
  - constructor.
  - eapply perm_trans; [apply insert_sorted_perm | now apply perm_skip].
Qed.

Lemma insert_sorted_sorted (x : A) (l : list A) :
  StronglySorted (fun a b => leb a b = true) l ->
  StronglySorted (fun a b => leb a b = true) (insert_sorted leb x l).
Proof.
  induction 1 as [|y l Hs IH Hall]; simpl.
  - repeat constructor.
  - destruct (leb x y) eqn:E.
    + constructor; [now constructor|].
      constructor; [assumption|].
      eapply Forall_impl; [|exact Hall]. intros z Hz. eapply leb_trans; eauto.
    + constructor; [assumption|].
      assert (Hyx : leb y x = true) by (destruct (leb_total x y); congruence).
      eapply Permutation_Forall; [apply Permutation_sym, insert_sorted_perm|].
      now constructor.
Qed.

Lemma insertion_sort_sorted (l : list A) :
  StronglySorted (fun a b => leb a b = true) (insertion_sort leb l).
Proof.
  induction l as [|x l IH]; simpl.
  - constructor.
  - now apply insert_sorted_sorted.
Qed.

Lemma insertion_sort_In (l : list A) (x : A) :
  In x (insertion_sort leb l) <-> In x l.
Proof.
  split; apply Permutation_in;
    [apply insertion_sort_perm | apply Permutation_sym, insertion_sort_perm].
Qed.

Lemma insertion_sort_head_least (l : list A) (x : A) (rest : list A) :
  insertion_sort leb l = x :: rest ->
  forall y, In y l -> leb x y = true.
Proof.
  intros E y Hy. apply insertion_sort_In in Hy.
  pose proof (insertion_sort_sorted l) as Hs. rewrite E in Hs, Hy.
  inversion Hs as [|? ? _ Hall]; subst.
  destruct Hy as [->|Hy].
  - destruct (leb_total y y); assumption.
  - rewrite Forall_forall in Hall. now apply Hall.
Qed.

End SortFacts.

(** Python's order on [str]: lexicographic on the characters. *)

Lemma ascii_compare_trans_lt (a b c : ascii) :
  Ascii.compare a b = Lt -> Ascii.compare b c = Lt -> Ascii.compare a c = Lt.
Proof.
  unfold Ascii.compare. rewrite !N.compare_lt_iff. lia.
Qed.

Lemma string_leb_trans (a b c : string) :
  String.leb a b = true -> String.leb b c = true -> String.leb a c = true.
Proof.
  unfold String.leb. revert b c.
  induction a as [|x a IH]; intros [|y b] [|z c]; simpl; try easy.
  destruct (Ascii.compare x y) eqn:Exy; try easy.
  - apply Ascii.compare_eq_iff in Exy. subst y.
    destruct (Ascii.compare x z) eqn:Exz; try easy. apply IH.
  - destruct (Ascii.compare y z) eqn:Eyz; try easy.
    + apply Ascii.compare_eq_iff in Eyz. subst z. now rewrite Exy.
    + now rewrite (ascii_compare_trans_lt _ _ _ Exy Eyz).
Qed.

(** ** Distinct values and counts *)

Lemma unique_In (l : list string) (v : string) : In v (unique l) <-> In v l.
Proof.
  induction l as [|x l IH]; simpl; [tauto|].
  rewrite filter_In, IH, negb_true_iff, String.eqb_neq.
  destruct (string_dec x v); intuition congruence.
Qed.

Lemma unique_NoDup (l : list string) : NoDup (unique l).
Proof.
  induction l as [|x l IH]; simpl; constructor.
  - rewrite filter_In, negb_true_iff, String.eqb_neq. intros [_ H]. now apply H.
  - now apply NoDup_filter.
Qed.

Lemma fold_max_ge (ns : list nat) (n : nat) :
  In n ns -> (n <= fold_right Nat.max O ns)%nat.
Proof.
  induction ns as [|m ns IH]; simpl; [easy|].
  intros [->|H]; [lia|]. specialize (IH H). lia.
Qed.

Lemma fold_max_attained (ns : list nat) :
  ns <> [] -> In (fold_right Nat.max O ns) ns.
Proof.
  induction ns as [|m ns IH]; [easy|]. intros _. simpl.
  destruct ns as [|k ns].
  - left. simpl. lia.
  - destruct (Nat.max_spec m (fold_right Nat.max O (k :: ns))) as [[_ E]|[_ E]];
      rewrite E; [right; now apply IH | now left].
Qed.

Lemma count_notin (l : list string) (v : string) : ~ In v l -> count l v = O.
Proof.
  intros H. unfold count. rewrite filter_none; [reflexivity|].
  intros x Hx. apply String.eqb_neq. intros ->. now apply H.
Qed.

Lemma count_le_max_count (l : list string) (v : string) :
  (count l v <= max_count l)%nat.
Proof.
  destruct (in_dec string_dec v l) as [Hin|Hout].
  - apply fold_max_ge, in_map, unique_In, Hin.
  - rewrite count_notin by assumption. lia.
Qed.

Lemma max_count_attained (l : list string) :
  l <> [] -> exists v, In v l /\ count l v = max_count l.
Proof.
  intros Hne.
  assert (Hu : map (count l) (unique l) <> []).
  { destruct l as [|x l]; [congruence|]. simpl. discriminate. }
  apply fold_max_attained in Hu. apply in_map_iff in Hu.
  destruct Hu as [v [E Hv]]. exists v. split; [now apply unique_In|exact E].
Qed.

(** ** The most common service *)

Lemma mode_In (l : list string) (m : string) :
  In m (mode l) <-> In m l /\ count l m = max_count l.
Proof.
  unfold mode. rewrite insertion_sort_In, filter_In, unique_In, Nat.eqb_eq.
  tauto.
Qed.

(** C7 (as amended).  On a non-empty frame [mode()[0]] is a most frequent
    service, and among the services tied for the highest frequency it is
    the least in string order (not the one that occurs first). *)
Theorem C7_most_common_service_least_of_modes (d : DataFrame) :
  rows d <> [] ->
  exists m,
    most_common_service d = Ok m
    /\ In m (map service (rows d))
    /\ (forall v, count (map service (rows d)) v
                  <= count (map service (rows d)) m)%nat
    /\ (forall v, In v (map service (rows d)) ->
                  count (map service (rows d)) v
                  = count (map service (rows d)) m ->
                  String.leb m v = true).
Proof.
  intros Hne. unfold most_common_service.
  set (l := map service (rows d)).
  assert (Hl : l <> []).
  { subst l. destruct (rows d); [congruence|discriminate]. }
  destruct (max_count_attained l Hl) as [w [Hw Ew]].
  destruct (mode l) as [|m rest] eqn:Em.
  - exfalso. assert (H : In w (mode l)) by (apply mode_In; tauto).
    rewrite Em in H. destruct H.
  - exists m. simpl.
    assert (Hm : In m (mode l)) by (rewrite Em; now left).
    apply mode_In in Hm. destruct Hm as [Hin Hc].
    split; [reflexivity|]. split; [assumption|]. split.
    + intros v. rewrite Hc. apply count_le_max_count.
    + intros v Hv Ev. unfold mode in Em.
      eapply (insertion_sort_head_least String.leb String.leb_total string_leb_trans);
        [exact Em|].
      apply filter_In. split; [now apply unique_In|].
      apply Nat.eqb_eq. congruence.
Qed.

Lemma C7_most_common_service_witness :
  exists m,
    most_common_service tied_services = Ok m
    /\ In m (map service (rows tied_services))
    /\ (forall v, count (map service (rows tied_services)) v
                  <= count (map service (rows tied_services)) m)%nat
    /\ (forall v, In v (map service (rows tied_services)) ->
                  count (map service (rows tied_services)) v
                  = count (map service (rows tied_services)) m ->
                  String.leb m v = true).
Proof.
  apply (C7_most_common_service_least_of_modes tied_services).
  simpl. discriminate.
Defined.

(** C7 as stated fails: with "Surgery" and "Cardiology" seen once each, in
    that order, the first-occurring tied value is "Surgery" but the script
    shows "Cardiology". *)
Lemma C7_tie_is_not_first_occurrence :
  ~ (forall d : DataFrame, rows d <> [] ->
       exists m, most_common_service d = Ok m
                 /\ spec_mode (map service (rows d)) = Some m).
Proof.
  intros H. destruct (H tied_services) as [m [E1 E2]].
  - simpl. discriminate.
  - vm_compute in E1, E2. congruence.
Qed.

(** ** Positional indexing and arg-sorts *)

Lemma take_app {A} (l : list A) (i j : list nat) :
  take l (i ++ j) = take l i ++ take l j.
Proof. unfold take. apply flat_map_app. Qed.

Lemma take_seq_shift {A} (pre l : list A) :
  take (pre ++ l) (seq (List.length pre) (List.length l)) = l.
Proof.
  revert pre. induction l as [|x l IH]; intros pre; [reflexivity|].
  cbn [List.length seq take flat_map].
  rewrite nth_error_app2, Nat.sub_diag by lia. simpl. f_equal.
  specialize (IH (pre ++ [x])).
  rewrite <- app_assoc, length_app, Nat.add_1_r in IH. exact IH.
Qed.

Lemma take_seq {A} (l : list A) : take l (seq 0 (List.length l)) = l.
Proof. exact (take_seq_shift [] l). Qed.

Lemma take_Permutation {A} (l : list A) (idx : list nat) :
  Permutation idx (seq 0 (List.length l)) -> Permutation (take l idx) l.
Proof.
  intros H. rewrite <- (take_seq l) at 2. unfold take.
  now apply Permutation_flat_map.
Qed.

Lemma take_map {A B} (f : A -> B) (l : list A) (idx : list nat) :
  map f (take l idx) = take (map f l) idx.
Proof.
  induction idx as [|i idx IH]; [reflexivity|].
  cbn [take flat_map]. rewrite map_app, nth_error_map. fold (take l idx).
  fold (take (map f l) idx). rewrite IH.
  destruct (nth_error l i); reflexivity.
Qed.

Lemma take_pairs {A} (l : list A) (ps : list (nat * A)) :
  Forall (fun p => nth_error l (fst p) = Some (snd p)) ps ->
  take l (map fst ps) = map snd ps.
Proof.
  induction 1 as [|p ps Hp _ IH]; [reflexivity|].
  cbn [map take flat_map]. rewrite Hp. simpl. f_equal. exact IH.
Qed.

Lemma combine_seq_nth {A} (l : list A) (start : nat) :
  Forall (fun p => nth_error l (fst p - start) = Some (snd p)
                   /\ (start <= fst p)%nat)
         (combine (seq start (List.length l)) l).
Proof.
  revert start. induction l as [|x l IH]; intros start; [constructor|].
  cbn [List.length seq combine]. constructor.
  - simpl. rewrite Nat.sub_diag. split; [reflexivity|lia].
  - eapply Forall_impl; [|apply (IH (S start))].
    intros [i v] [Hi Hle]. simpl in *. split; [|lia].
    replace (i - start)%nat with (S (i - S start)) by lia. exact Hi.
Qed.

Lemma map_snd_combine_seq {A} (l : list A) (start : nat) :
  map snd (combine (seq start (List.length l)) l) = l.
Proof.
  revert start. induction l as [|x l IH]; intros start; [reflexivity|].
  cbn [List.length seq combine map]. now rewrite IH.
Qed.

Lemma insertion_sort_map {A B} (g : A -> B)
      (leb2 : A -> A -> bool) (leb1 : B -> B -> bool) (l : list A) :
  (forall a b, leb2 a b = leb1 (g a) (g b)) ->
  map g (insertion_sort leb2 l) = insertion_sort leb1 (map g l).
Proof.
  intros Hg. induction l as [|x l IH]; [reflexivity|].
  cbn [insertion_sort fold_right map].
  fold (insertion_sort leb2 l). fold (insertion_sort leb1 (map g l)).
  rewrite <- IH. generalize (insertion_sort leb2 l) as s.
  induction s as [|y s IHs]; [reflexivity|].
  cbn [insert_sorted map]. rewrite <- Hg.
  destruct (leb2 x y); cbn [map]; [reflexivity|now rewrite IHs].
Qed.

(** Taking the entries at the positions a stable arg-sort returns is
    sorting the entries themselves, stably. *)
Lemma take_stable_argsort {A V} (leb : V -> V -> bool) (f : A -> V) (l : list A) :
  take l (stable_argsort leb (map f l))
  = insertion_sort (fun a b => leb (f a) (f b)) l.
Proof.
  unfold stable_argsort. rewrite length_map.
  set (c := combine (seq 0 (List.length l)) l).
  assert (Hc : combine (seq 0 (List.length l)) (map f l)
               = map (fun p => (fst p, f (snd p))) c).
  { subst c. generalize 0%nat as start.
    induction l as [|x l IH]; intros start; [reflexivity|].
    cbn [List.length seq map combine]. simpl. f_equal. apply IH. }
  rewrite Hc.
  rewrite <- (insertion_sort_map (fun p => (fst p, f (snd p)))
                (fun a b => leb (f (snd a)) (f (snd b)))); [|reflexivity].
  rewrite map_map. cbn [fst].
  rewrite (take_pairs l).
  - rewrite (insertion_sort_map snd _ (fun a b => leb (f a) (f b)));
      [|reflexivity].
    subst c. now rewrite map_snd_combine_seq.
  - eapply Permutation_Forall;
      [apply Permutation_sym, insertion_sort_perm|].
    subst c. eapply Forall_impl; [|apply (combine_seq_nth l 0)].
    intros [i v] [Hi _]. simpl in *. now rewrite Nat.sub_0_r in Hi.
Qed.

(** ** Facts about [StronglySorted] *)

Lemma StronglySorted_weaken {A} (R R' : A -> A -> Prop) (l : list A) :
  (forall a b, In a l -> In b l -> R a b -> R' a b) ->
  StronglySorted R l -> StronglySorted R' l.
Proof.
  intros H Hs. induction Hs as [|x l Hs IH Hall]; constructor.
  - apply IH. intros a b Ha Hb. apply H; now right.
  - rewrite Forall_forall in *. intros y Hy.
    apply H; [now left | now right | now apply Hall].
Qed.

Lemma StronglySorted_app {A} (R : A -> A -> Prop) (l1 l2 : list A) :
  StronglySorted R l1 -> StronglySorted R l2 ->
  (forall a b, In a l1 -> In b l2 -> R a b) ->
  StronglySorted R (l1 ++ l2).
Proof.
  intros H1 H2 H. induction H1 as [|x l1 Hs IH Hall]; simpl; [assumption|].
  constructor.
  - apply IH. intros a b Ha. apply H. now right.
  - apply Forall_app. split; [assumption|].
    apply Forall_forall. intros b Hb. apply H; [now left|assumption].
Qed.

Lemma StronglySorted_rev {A} (R : A -> A -> Prop) (l : list A) :
  StronglySorted R l -> StronglySorted (fun a b => R b a) (rev l).
Proof.
  induction 1 as [|x l Hs IH Hall]; simpl; [constructor|].
  apply StronglySorted_app; [assumption | repeat constructor |].
  intros a b Ha [<-|[]]. rewrite Forall_forall in Hall.
  apply Hall. now apply in_rev.
Qed.

Lemma StronglySorted_map {A B} (f : A -> B) (R : B -> B -> Prop) (l : list A) :
  StronglySorted (fun a b => R (f a) (f b)) l <-> StronglySorted R (map f l).
Proof.
  split.
  - induction 1 as [|x l Hs IH Hall]; simpl; constructor; [assumption|].
    now apply Forall_map.
  - induction l as [|x l IH]; simpl; intros H; [constructor|].
    inversion H as [|? ? Hs Hall]; subst. constructor; [now apply IH|].
    rewrite Forall_map in Hall. exact Hall.
Qed.

Lemma StronglySorted_NoDup {A} (R : A -> A -> Prop) (l : list A) :
  StronglySorted R l -> NoDup l ->
  StronglySorted (fun a b => R a b /\ a <> b) l.
Proof.
  induction 1 as [|x l Hs IH Hall]; intros Hnd; constructor;
    inversion Hnd as [|? ? Hx Hnd']; subst.
  - now apply IH.
  - rewrite Forall_forall in *. intros y Hy. split; [now apply Hall|].
    intros ->. contradiction.
Qed.

(** A stable insertion sort keeps, among elements the order does not
    separate, the order [P] they came in. *)
Section Stable.
Context {A : Type} (leb : A -> A -> bool) (P : A -> A -> Prop).
Hypothesis leb_total : forall a b, leb a b = true \/ leb b a = true.
Hypothesis leb_trans : forall a b c, leb a b = true -> leb b c = true -> leb a c = true.

Local Abbreviation stable_rel :=
  (fun a b => leb a b = true /\ (leb b a = true -> P a b)).

Lemma insert_sorted_stable (x : A) (l : list A) :
  Forall (P x) l -> StronglySorted stable_rel l ->
  StronglySorted stable_rel (insert_sorted leb x l).
Proof.
  intros HP Hs. induction Hs as [|y l Hs IH Hall]; simpl.
  - repeat constructor.
  - inversion HP as [|? ? Hxy HPl]; subst.
    rewrite Forall_forall in Hall, HPl.
    destruct (leb x y) eqn:E.
    + constructor; [constructor; [assumption|now apply Forall_forall]|].
      constructor; [now split|].
      apply Forall_forall. intros z Hz. split.
      * eapply leb_trans; [exact E|]. now apply Hall.
      * intros _. now apply HPl.
    + constructor; [apply IH; now apply Forall_forall|].
      eapply Permutation_Forall;
        [apply Permutation_sym, insert_sorted_perm|].
      constructor; [|now apply Forall_forall].
      split; [destruct (leb_total x y); congruence | congruence].
Qed.

Lemma insertion_sort_stable (l : list A) :
  StronglySorted P l -> StronglySorted stable_rel (insertion_sort leb l).
Proof.
  induction 1 as [|x l Hs IH Hall]; simpl; [constructor|].
  apply insert_sorted_stable; [|assumption].
  eapply Permutation_Forall; [apply Permutation_sym, insertion_sort_perm|].
  assumption.
Qed.

End Stable.

(** ** Means *)

Lemma list_min_le (l : list Z) (x : Z) : In x l -> list_min l <= x.
Proof.
  unfold list_min. generalize (hd 0 l) as d.
  induction l as [|y l IH]; simpl; [easy|].
  intros d [->|H]; [lia|]. specialize (IH d H). lia.
Qed.

Lemma list_max_ge (l : list Z) (x : Z) : In x l -> x <= list_max l.
Proof.
  unfold list_max. generalize (hd 0 l) as d.
  induction l as [|y l IH]; simpl; [easy|].
  intros d [->|H]; [lia|]. specialize (IH d H). lia.
Qed.

Lemma sumZ_bounds (l : list Z) (lo hi : Z) :
  (forall x, In x l -> lo <= x <= hi) ->
  lo * Z.of_nat (List.length l) <= sumZ l <= hi * Z.of_nat (List.length l).
Proof.
  induction l as [|y l IH]; intros H; [simpl; lia|].
  cbn [sumZ fold_right List.length]. fold (sumZ l).
  assert (Hy : lo <= y <= hi) by (apply H; now left).
  assert (Hl : forall x, In x l -> lo <= x <= hi) by (intros; apply H; now right).
  specialize (IH Hl). lia.
Qed.

(** *** Rounding to binary64 keeps a value between two integers below 2^53 *)

Lemma floor_log2_le_52 (a d : positive) :
  Zpos a < 2 ^ 53 * Zpos d -> floor_log2 a d <= 52.
Proof.
  intros H. unfold floor_log2.
  set (k := Z.log2 (Zpos a) - Z.log2 (Zpos d)).
  assert (Hk : k <= 53).
  { destruct (Z.log2_spec (Zpos a)) as [Ha _]; [lia|].
    destruct (Z.log2_spec (Zpos d)) as [_ Hd]; [lia|].
    assert (H1 : 2 ^ Z.log2 (Zpos a) < 2 ^ (53 + Z.succ (Z.log2 (Zpos d)))).
    { rewrite Z.pow_add_r; [|lia|pose proof (Z.log2_nonneg (Zpos d)); lia].
      assert (0 < 2 ^ 53) by (apply Z.pow_pos_nonneg; lia). nia. }
    apply Z.pow_lt_mono_r_iff in H1; [subst k; lia|lia|].
    pose proof (Z.log2_nonneg (Zpos d)). lia. }
  destruct (0 <=? k) eqn:E0.
  - destruct (Zpos d * 2 ^ k <=? Zpos a) eqn:E1; [|lia].
    apply Z.leb_le in E1. destruct (Z.le_gt_cases k 52) as [|Hgt]; [assumption|].
    exfalso. assert (2 ^ 53 <= 2 ^ k) by (apply Z.pow_le_mono_r; lia). nia.
  - apply Z.leb_gt in E0. destruct (_ <=? _); lia.
Qed.

Lemma round_half_even_bounds (num den : Z) :
  0 < den ->
  num / den <= round_half_even num den <= num / den + 1
  /\ (round_half_even num den = num / den + 1 -> 0 < num mod den).
Proof.
  intros Hd. unfold round_half_even.
  pose proof (Z.mod_pos_bound num den Hd) as Hm.
  destruct (2 * (num mod den) ?= den) eqn:E.
  - apply Z.compare_eq in E. destruct (Z.even (num / den)); split; lia.
  - split; lia.
  - apply Z.compare_gt_iff in E. split; lia.
Qed.

Lemma round64_pos_between (a d : positive) (A B : Z) :
  A * Zpos d <= Zpos a -> Zpos a <= B * Zpos d -> B < 2 ^ 53 ->
  (inject_Z A <= round64_pos a d <= inject_Z B)%Q.
Proof.
  intros HA HB Hlt. unfold round64_pos.
  assert (He : floor_log2 a d - 52 <= 0).
  { pose proof (floor_log2_le_52 a d). assert (0 < 2 ^ 53) by (apply Z.pow_pos_nonneg; lia).
    assert (Zpos a < 2 ^ 53 * Zpos d) by nia. lia. }
  set (e := floor_log2 a d - 52) in *.
  set (s := - e). assert (Hs : 0 <= s) by lia.
  assert (HP : 0 < 2 ^ s) by (apply Z.pow_pos_nonneg; lia).
  set (P := 2 ^ s) in *.
  set (m := round_half_even (Zpos a * P) (Zpos d)).
  destruct (round_half_even_bounds (Zpos a * P) (Zpos d)) as [[Hlo Hhi] Hup]; [lia|].
  fold m in Hlo, Hhi, Hup.
  pose proof (Z.div_mod (Zpos a * P) (Zpos d)) as Hdm.
  pose proof (Z.mod_pos_bound (Zpos a * P) (Zpos d)) as Hmb.
  assert (Hm : A * P <= m /\ m <= B * P).
  { split.
    - assert (A * P <= Zpos a * P / Zpos d); [|lia].
      apply Z.div_le_lower_bound; [lia|]. nia.
    - assert (Hq : Zpos a * P / Zpos d <= B * P).
      { apply Z.div_le_upper_bound; [lia|]. nia. }
      destruct (Z.eq_dec m (Zpos a * P / Zpos d + 1)) as [E|NE]; [|lia].
      specialize (Hup E).
      destruct (Z.eq_dec (Zpos a * P / Zpos d) (B * P)) as [E2|]; [|lia].
      exfalso. rewrite E2 in Hdm. nia. }
  destruct (0 <=? e) eqn:E0.
  - apply Z.leb_le in E0. assert (e = 0) by lia.
    assert (Es : s = 0) by lia. subst P m. rewrite Es in *.
    replace e with 0 by lia. rewrite Z.pow_0_r, !Z.mul_1_r in *.
    unfold Qle. cbn [Qnum Qden inject_Z]. lia.
  - fold s. fold P. fold m. rewrite !Qred_correct.
    unfold Qle. cbn [Qnum Qden inject_Z]. rewrite Z2Pos.id by lia. lia.
Qed.

Lemma round64_between (q : Q) (A B : Z) :
  (inject_Z A <= q <= inject_Z B)%Q -> - 2 ^ 53 < A -> B < 2 ^ 53 ->
  (inject_Z A <= round64 q <= inject_Z B)%Q.
Proof.
  destruct q as [n d]. unfold round64, Qle. cbn [Qnum Qden inject_Z].
  rewrite !Z.mul_1_r. intros [HA HB] HlA HlB. destruct n as [|a|a].
  - cbn. lia.
  - destruct (round64_pos_between a d A B) as [H1 H2]; [lia|lia|lia|].
    unfold Qle in H1, H2. cbn [Qnum Qden inject_Z] in H1, H2. lia.
  - destruct (round64_pos_between a d (- B) (- A)) as [H1 H2]; [lia|lia|lia|].
    unfold Qle in H1, H2. cbn [Qnum Qden inject_Z Qopp] in *. lia.
Qed.

Lemma list_min_In (l : list Z) : l <> [] -> In (list_min l) l.
Proof.
  destruct l as [|y l]; [congruence|]. intros _. unfold list_min.
  cbn [hd fold_right].
  assert (H : In (fold_right Z.min y l) (y :: l)).
  { induction l as [|z l IH]; [now left|]. cbn [fold_right].
    destruct (Z.min_spec z (fold_right Z.min y l)) as [[_ ->]|[_ ->]].
    - right. now left.
    - destruct IH as [E|E]; [now left|right; now right]. }
  destruct (Z.min_spec y (fold_right Z.min y l)) as [[_ ->]|[_ ->]];
    [now left|exact H].
Qed.

Lemma list_max_In (l : list Z) : l <> [] -> In (list_max l) l.
Proof.
  destruct l as [|y l]; [congruence|]. intros _. unfold list_max.
  cbn [hd fold_right].
  assert (H : In (fold_right Z.max y l) (y :: l)).
  { induction l as [|z l IH]; [now left|]. cbn [fold_right].
    destruct (Z.max_spec z (fold_right Z.max y l)) as [[_ ->]|[_ ->]].
    - destruct IH as [E|E]; [now left|right; now right].
    - right. now left. }
  destruct (Z.max_spec y (fold_right Z.max y l)) as [[_ ->]|[_ ->]];
    [exact H|now left].
Qed.

Lemma abs_le_sum_abs (l : list Z) (x : Z) :
  In x l -> Z.abs x <= sumZ (map Z.abs l).
Proof.
  induction l as [|y l IH]; [easy|].
  cbn [map sumZ fold_right]. fold (sumZ (map Z.abs l)).
  assert (0 <= sumZ (map Z.abs l)).
  { clear. induction l as [|z l IH]; [cbn; lia|].
    cbn [map sumZ fold_right]. fold (sumZ (map Z.abs l)). lia. }
  intros [->|H']; [lia|]. specialize (IH H'). lia.
Qed.

Lemma mean_within_group (l : list Z) :
  l <> [] -> exact_sum l = true -> mean_within l (mean l).
Proof.
  intros Hne Hex. apply andb_true_iff in Hex. destruct Hex as [Hex _].
  apply Z.ltb_lt in Hex.
  pose proof (abs_le_sum_abs l _ (list_min_In l Hne)) as Hmin.
  pose proof (abs_le_sum_abs l _ (list_max_In l Hne)) as Hmax.
  destruct l as [|y l]; [congruence|].
  set (vs := y :: l) in *. unfold mean_within, mean. fold vs.
  eexists. split; [reflexivity|].
  pose proof (sumZ_bounds vs (list_min vs) (list_max vs)) as Hb.
  assert (Hpos : Z.pos (Pos.of_nat (List.length vs)) = Z.of_nat (List.length vs)).
  { subst vs. cbn [List.length]. rewrite <- Pos.of_nat_succ.
    rewrite Zpos_P_of_succ_nat, Nat2Z.inj_succ. reflexivity. }
  apply round64_between; [|lia|lia].
  unfold Qle. cbn [Qnum Qden inject_Z].
  rewrite Hpos, !Z.mul_1_r. apply Hb.
  intros x Hx. split; [now apply list_min_le | now apply list_max_ge].
Qed.

(** ** Group means *)

Lemma string_leb_neq_ltb (a b : string) :
  String.leb a b = true -> a <> b -> String.ltb a b = true.
Proof.
  unfold String.leb, String.ltb. destruct (String.compare a b) eqn:E; try easy.
  intros _ H. apply String.compare_eq_iff in E. contradiction.
Qed.

Lemma groupby_keys_ascending (l : list string) :
  StronglySorted (fun a b => String.ltb a b = true)
                 (insertion_sort String.leb (unique l)).
Proof.
  eapply StronglySorted_weaken;
    [|apply StronglySorted_NoDup;
      [apply (insertion_sort_sorted String.leb String.leb_total string_leb_trans)|]].
  - intros a b _ _ [H1 H2]. now apply string_leb_neq_ltb.
  - eapply Permutation_NoDup;
      [apply Permutation_sym, insertion_sort_perm | apply unique_NoDup].
Qed.

Lemma group_values_nonempty (k : string) (rs : list Row) :
  In k (map service rs) -> group_values k rs <> [].
Proof.
  intros H. apply in_map_iff in H. destruct H as [r [E Hr]].
  assert (Hin : In (satisfaction r) (group_values k rs)).
  { unfold group_values. apply in_map, filter_In. split; [assumption|].
    apply String.eqb_eq, E. }
  intros Hnil. rewrite Hnil in Hin. destruct Hin.
Qed.

Lemma groupby_service_mean_keys (rs : list Row) :
  map fst (groupby_service_mean rs)
  = insertion_sort String.leb (unique (map service rs)).
Proof.
  unfold groupby_service_mean. rewrite map_map. simpl. apply map_id.
Qed.

Lemma groupby_service_mean_In (rs : list Row) (k : string) (m : float Q) :
  In (k, m) (groupby_service_mean rs) ->
  In k (map service rs) /\ m = mean (group_values k rs)
  /\ exists q, m = Fin q.
Proof.
  unfold groupby_service_mean. intros H. apply in_map_iff in H.
  destruct H as [k' [E Hk]]. injection E as Ek Em. subst k m.
  rewrite insertion_sort_In, unique_In in Hk.
  split; [assumption|]. split; [reflexivity|].
  pose proof (group_values_nonempty k' rs Hk) as Hne.
  unfold mean. destruct (group_values k' rs); [congruence|]. eauto.
Qed.

Lemma groupby_service_mean_finite (rs : list Row) :
  Forall (fun e => exists q, snd e = Fin q) (groupby_service_mean rs).
Proof.
  apply Forall_forall. intros [k m] H.
  apply groupby_service_mean_In in H. destruct H as (_ & _ & q & E).
  now exists q.
Qed.

(** The sums of a part of a column are exact when those of the column
    are. *)
Lemma exact_sum_filter {A} (f : A -> Z) (p : A -> bool) (l : list A) :
  exact_sum (map f l) = true -> exact_sum (map f (filter p l)) = true.
Proof.
  unfold exact_sum. rewrite !andb_true_iff, !Z.ltb_lt, !length_map.
  intros [H1 H2].
  assert (Hs : sumZ (map Z.abs (map f (filter p l)))
               <= sumZ (map Z.abs (map f l))).
  { clear. induction l as [|x l IH]; [cbn; lia|].
    cbn [filter]. destruct (p x); cbn [map sumZ fold_right];
      fold (sumZ (map Z.abs (map f l)));
      fold (sumZ (map Z.abs (map f (filter p l)))); lia. }
  pose proof (filter_length_le p l) as Hl. lia.
Qed.

Lemma notna_all_finite {K} (s : list (K * float Q)) :
  Forall (fun e => exists q, snd e = Fin q) s ->
  isna s = [] /\ map (fun e => (fst e, Fin (snd e))) (notna s) = s.
Proof.
  induction 1 as [|[k m] s [q E] _ [IH1 IH2]]; [split; reflexivity|].
  simpl in E. subst m. unfold isna, notna in *. simpl. split; [assumption|].
  now rewrite IH2.
Qed.

Section SortValuesFacts.
Context {K : Type}.
Variable argsort : list Q -> list nat.
Variable s : list (K * float Q).
Hypothesis finite : Forall (fun e => exists q, snd e = Fin q) s.

Lemma sort_values_desc_Permutation :
  sorts Qle argsort -> Permutation (sort_values_desc argsort s) s.
Proof.
  intros Hsorts. unfold sort_values_desc.
  destruct (notna_all_finite s finite) as [Hna Hfin].
  rewrite Hna, app_nil_r. rewrite <- Hfin at 3.
  apply Permutation_map.
  eapply perm_trans; [apply Permutation_sym, Permutation_rev|].
  eapply perm_trans; [|apply Permutation_sym, Permutation_rev].
  apply take_Permutation.
  destruct (Hsorts (map snd (rev (notna s)))) as [Hp _].
  now rewrite length_map in Hp.
Qed.

Lemma sort_values_desc_descending :
  sorts Qle argsort -> desc_by_mean (sort_values_desc argsort s).
Proof.
  intros Hsorts. unfold sort_values_desc, desc_by_mean.
  destruct (notna_all_finite s finite) as [Hna _].
  rewrite Hna, app_nil_r.
  apply StronglySorted_map. simpl.
  apply (StronglySorted_rev (fun a b : K * Q => (snd a <= snd b)%Q)).
  apply (StronglySorted_map snd Qle). rewrite take_map.
  apply Hsorts.
Qed.

End SortValuesFacts.

Lemma Qle_bool_total (a b : Q) : Qle_bool a b = true \/ Qle_bool b a = true.
Proof.
  rewrite !Qle_bool_iff. destruct (Qlt_le_dec a b) as [H|H];
    [left; now apply Qlt_le_weak | now right].
Qed.

Lemma Qle_bool_trans (a b c : Q) :
  Qle_bool a b = true -> Qle_bool b c = true -> Qle_bool a c = true.
Proof. rewrite !Qle_bool_iff. apply Qle_trans. Qed.

(** With a stable arg-sort, entries of equal mean keep the order of the
    grouped Series, which is ascending in the label. *)
Lemma sort_values_desc_stable (s : list (string * float Q)) :
  Forall (fun e => exists q, snd e = Fin q) s ->
  StronglySorted (fun a b => String.ltb a b = true) (map fst s) ->
  desc_by_mean_then_label (sort_values_desc (stable_argsort Qle_bool) s).
Proof.
  intros Hfin Hkeys. unfold sort_values_desc, desc_by_mean_then_label.
  destruct (notna_all_finite s Hfin) as [Hna Hs].
  rewrite Hna, app_nil_r, take_stable_argsort.
  apply StronglySorted_map. simpl.
  eapply StronglySorted_weaken;
    [|apply (StronglySorted_rev
               (fun a b : string * Q =>
                  Qle_bool (snd a) (snd b) = true
                  /\ (Qle_bool (snd b) (snd a) = true ->
                      String.ltb (fst b) (fst a) = true)))].
  - intros a b _ _ [H1 H2]. rewrite !Qle_bool_iff in *. tauto.
  - apply (insertion_sort_stable
             (fun a b : string * Q => Qle_bool (snd a) (snd b))
             (fun a b => String.ltb (fst b) (fst a) = true)).
    + intros a b. apply Qle_bool_total.
    + intros a b c. apply Qle_bool_trans.
    + apply (StronglySorted_rev (fun a b : string * Q => String.ltb (fst a) (fst b) = true)).
      apply (StronglySorted_map fst (fun a b => String.ltb a b = true)).
      rewrite <- Hs in Hkeys. rewrite map_map in Hkeys. exact Hkeys.
Qed.

Lemma age_labels_complete (g : AgeLabel) : In g age_labels.
Proof. destruct g; simpl; tauto. Qed.

Lemma age_group_satisfaction_In (observed : bool) (d : DataFrame)
      (g : AgeLabel) (m : float Q) :
  In (g, m) (age_group_satisfaction observed d) <->
  m = mean (bucket_values g (rows d))
  /\ (bucket_values g (rows d) = [] -> observed = false).
Proof.
  unfold age_group_satisfaction. rewrite in_flat_map. split.
  - intros [g' [_ H]]. destruct (bucket_values g' (rows d)) as [|v vs] eqn:E.
    + destruct observed; [destruct H|]. destruct H as [H|[]].
      injection H as <- <-. rewrite E. now split.
    + destruct H as [H|[]]. injection H as <- <-. rewrite E.
      split; [reflexivity|discriminate].
  - intros [-> Hobs]. exists g. split; [apply age_labels_complete|].
    destruct (bucket_values g (rows d)) as [|v vs] eqn:E.
    + rewrite (Hobs eq_refl). now left.
    + now left.
Qed.

Lemma flat_map_keys_Subseq {K V} (f : K -> list (K * V)) (l : list K) :
  (forall k, f k = [] \/ exists v, f k = [(k, v)]) ->
  Subseq (map fst (flat_map f l)) l.
Proof.
  intros Hf. induction l as [|k l IH]; simpl; [constructor|].
  destruct (Hf k) as [E|[v E]]; rewrite E; simpl; now constructor.
Qed.


Lemma map_fst_combine_seq {A} (l : list A) (start : nat) :
  map fst (combine (seq start (List.length l)) l) = seq start (List.length l).
Proof.
  revert start. induction l as [|x l IH]; intros start; [reflexivity|].
  cbn [List.length seq combine map]. now rewrite IH.
Qed.

(** The stable insertion arg-sort is an arg-sort. *)
Lemma stable_argsort_sorts : sorts Qle (stable_argsort Qle_bool).
Proof.
  intros l. split.
  - unfold stable_argsort. rewrite <- (map_fst_combine_seq l 0) at 2.
    apply Permutation_map, insertion_sort_perm.
  - rewrite <- (map_id l) at 2. rewrite take_stable_argsort.
    eapply StronglySorted_weaken;
      [|apply (insertion_sort_sorted _ Qle_bool_total Qle_bool_trans)].
    intros a b _ _ H. now apply Qle_bool_iff.
Qed.


Lemma later_first_total (a b : nat * Q) :
  later_first a b = true \/ later_first b a = true.
Proof.
  unfold later_first.
  destruct (Qle_bool_total (snd a) (snd b)) as [H|H]; rewrite H; cbn [andb].
  - destruct (Qle_bool (snd b) (snd a)); cbn [negb orb andb]; [|now left].
    destruct (Nat.le_ge_cases (fst b) (fst a)) as [L|L];
      apply Nat.leb_le in L; rewrite L; [now left|now right].
  - destruct (Qle_bool (snd a) (snd b)); cbn [negb orb andb]; [|now right].
    destruct (Nat.le_ge_cases (fst b) (fst a)) as [L|L];
      apply Nat.leb_le in L; rewrite L; [now left|now right].
Qed.

Lemma later_first_trans (a b c : nat * Q) :
  later_first a b = true -> later_first b c = true -> later_first a c = true.
Proof.
  unfold later_first. rewrite !andb_true_iff, !orb_true_iff, !negb_true_iff.
  intros [Hab Hab'] [Hbc Hbc'].
  pose proof (Qle_bool_trans _ _ _ Hab Hbc) as Hac. split; [exact Hac|].
  destruct (Qle_bool (snd c) (snd a)) eqn:Hca; [right|now left].
  pose proof (Qle_bool_trans _ _ _ Hca Hab) as Hcb.
  pose proof (Qle_bool_trans _ _ _ Hbc Hca) as Hba.
  destruct Hab' as [E|L1]; [congruence|].
  destruct Hbc' as [E|L2]; [congruence|].
  apply Nat.leb_le in L1, L2. apply Nat.leb_le. lia.
Qed.

Lemma reversing_argsort_sorts : sorts Qle reversing_argsort.
Proof.
  intros l. unfold reversing_argsort.
  set (ps := insertion_sort later_first (combine (seq 0 (List.length l)) l)).
  assert (Hperm : Permutation ps (combine (seq 0 (List.length l)) l))
    by apply insertion_sort_perm.
  split.
  - rewrite <- (map_fst_combine_seq l 0). now apply Permutation_map.
  - rewrite (take_pairs l).
    + apply (StronglySorted_map snd Qle).
      eapply StronglySorted_weaken;
        [|apply (insertion_sort_sorted later_first later_first_total
                                       later_first_trans)].
      intros a b _ _ H. unfold later_first in H.
      apply andb_true_iff in H. now apply Qle_bool_iff.
    + eapply Permutation_Forall; [apply Permutation_sym, Hperm|].
      eapply Forall_impl; [|apply (combine_seq_nth l 0)].
      intros [i v] [Hi _]. simpl in *. now rewrite Nat.sub_0_r in Hi.
Qed.


(** ** The name search *)

(** A pattern of the fragment followed by a lone backslash does not
    compile. *)
Lemma compile_chars_lone_backslash (n : nat) :
  forall (p : list ascii) (r : list Re.item),
    (List.length p <= n)%nat ->
    Re.compile_chars p = Some (Re.Compiled r) ->
    Re.compile_chars (p ++ [Re.backslash]) = Some Re.Invalid.
Proof.
  induction n as [|n IH]; intros p r Hlen Hc.
  - destruct p; [reflexivity|cbn [List.length] in Hlen; lia].
  - destruct p as [|c p]; [reflexivity|].
    cbn [List.length] in Hlen. cbn [Re.compile_chars app] in *.
    destruct (negb (Re.is_ascii c)); [discriminate|].
    destruct (Ascii.eqb c ".").
    { destruct (Re.compile_chars p) as [[r'|]|] eqn:E; try discriminate.
      rewrite (IH p r') by (trivial; lia). reflexivity. }
    destruct (Ascii.eqb c Re.backslash).
    { destruct p as [|e p]; [discriminate|]. cbn [app].
      destruct (Re.is_word e || negb (Re.is_ascii e)); [discriminate|].
      cbn [List.length] in Hlen.
      destruct (Re.compile_chars p) as [[r'|]|] eqn:E; try discriminate.
      rewrite (IH p r') by (trivial; lia). reflexivity. }
    destruct (Re.is_special c); [discriminate|].
    destruct (Re.compile_chars p) as [[r'|]|] eqn:E; try discriminate.
    rewrite (IH p r') by (trivial; lia). reflexivity.
Qed.

Lemma compile_chars_plain (t : list ascii) :
  forallb Re.is_ascii t = true ->
  forallb (fun c => negb (Re.is_special c)) t = true ->
  Re.compile_chars t = Some (Re.Compiled (map Re.Lit t)).
Proof.
  induction t as [|c t IH]; [reflexivity|].
  cbn [forallb]. rewrite !andb_true_iff, negb_true_iff.
  intros [Ha Hta] [Hc Ht].
  cbn [Re.compile_chars map]. rewrite (IH Hta Ht), Ha. cbn [negb].
  assert (Hdot : Ascii.eqb c "." = false).
  { destruct (Ascii.eqb_spec c "."); [subst c; discriminate Hc|reflexivity]. }
  assert (Hbs : Ascii.eqb c Re.backslash = false).
  { destruct (Ascii.eqb_spec c Re.backslash); [subst c; discriminate Hc|reflexivity]. }
  now rewrite Hdot, Hbs, Hc.
Qed.

Lemma match_here_literal (t s : list ascii) :
  Re.match_here (map Re.Lit t) s = true <->
  exists post, map Re.lower s = map Re.lower t ++ post.
Proof.
  revert s. induction t as [|c t IH]; intros s; cbn [map Re.match_here].
  - split; [intros _; now exists (map Re.lower s) | reflexivity].
  - destruct s as [|x s]; cbn [map].
    + split; [discriminate | intros [post H]; discriminate H].
    + rewrite andb_true_iff, Ascii.eqb_eq, IH. split.
      * intros [E [post H]]. exists post. simpl. now rewrite E, H.
      * intros [post H]. simpl in H. injection H as E H. split; [now symmetry|].
        now exists post.
Qed.

Lemma search_chars_literal (t s : list ascii) :
  Re.search_chars (map Re.Lit t) s = true <->
  exists pre post, map Re.lower s = pre ++ map Re.lower t ++ post.
Proof.
  induction s as [|x s IH]; cbn [Re.search_chars]; rewrite orb_true_iff.
  - rewrite match_here_literal. split.
    + intros [[post H]|H]; [|discriminate]. now exists [], post.
    + intros [pre [post H]]. left. destruct pre; [now exists post|discriminate H].
  - rewrite match_here_literal, IH. split.
    + intros [[post H]|[pre [post H]]].
      * now exists [], post.
      * exists (Re.lower x :: pre), post. simpl. now rewrite H.
    + intros [[|p pre] [post H]].
      * left. now exists post.
      * right. simpl in H. injection H as _ H. now exists pre, post.
Qed.

(** On a search term without special characters the compiled pattern
    finds exactly the case-insensitive literal occurrences. *)
Lemma search_plain_term (term s : string) :
  forallb Re.is_ascii (list_ascii_of_string term) = true ->
  forallb (fun c => negb (Re.is_special c)) (list_ascii_of_string term) = true ->
  exists r, Re.compile term = Some (Re.Compiled r)
            /\ (Re.search r s = true <-> ci_substring term s).
Proof.
  intros Ha H. exists (map Re.Lit (list_ascii_of_string term)). split.
  - now apply compile_chars_plain.
  - apply search_chars_literal.
Qed.

Lemma Subseq_In {A} (l1 l2 : list A) (x : A) :
  Subseq l1 l2 -> In x l1 -> In x l2.
Proof.
  induction 1 as [|y l1 l2 _ IH|y l1 l2 _ IH]; simpl; [easy|tauto|].
  intros [->|H]; [now left|right; now apply IH].
Qed.



(** ** The correlation coefficient *)

Section Clip64.
Import Floats.
Local Open Scope float_scope.

Lemma clip64_within (c : PrimFloat.float) :
  (Corr64.clip c <? -1) = false /\ (1 <? Corr64.clip c) = false.
Proof.
  unfold Corr64.clip.
  destruct (c <? -1) eqn:E1; [split; reflexivity|].
  destruct (1 <? c) eqn:E2; [split; reflexivity|].
  split; assumption.
Qed.

End Clip64.

Lemma correlation_within (d : DataFrame) :
  PrimFloat.ltb (correlation d) (PrimFloat.opp PrimFloat.one) = false
  /\ PrimFloat.ltb PrimFloat.one (correlation d) = false.
Proof.
  unfold correlation, Corr64.series_corr.
  destruct (Corr64.valid_pairs _ _); [split; reflexivity|].
  apply clip64_within.
Qed.

Section FloatFacts.
Import Floats.
Import Corr64.
Local Open Scope float_scope.

Lemma is_zero_zero_or_nan x : is_zero x = true -> zero_or_nan x.
Proof.
  unfold is_zero, zero_or_nan. rewrite eqb_spec.
  change (Prim2SF 0) with (S754_zero false).
  destruct (Prim2SF x) as [s|s| |s m e]; cbn; try discriminate; auto.
  all: destruct s; discriminate.
Qed.

Lemma float_is_nan x : Prim2SF x = S754_nan -> x = nan.
Proof. intros H. apply Prim2SF_inj. now rewrite H. Qed.

Lemma mul_zero_or_nan_l x y : zero_or_nan x -> zero_or_nan (x * y).
Proof.
  unfold zero_or_nan. rewrite mul_spec. unfold SF64mul.
  destruct (Prim2SF x) as [s|s| |s m e]; try contradiction;
    destruct (Prim2SF y) as [s'|s'| |s' m' e']; cbn; auto.
Qed.

Lemma mul_zero_or_nan_r x y : zero_or_nan y -> zero_or_nan (x * y).
Proof.
  unfold zero_or_nan. rewrite mul_spec. unfold SF64mul.
  destruct (Prim2SF y) as [s|s| |s m e]; try contradiction;
    destruct (Prim2SF x) as [s'|s'| |s' m' e']; cbn; auto.
Qed.

Lemma add_zero_or_nan x y : zero_or_nan x -> zero_or_nan y -> zero_or_nan (x + y).
Proof.
  unfold zero_or_nan. rewrite add_spec. unfold SF64add.
  destruct (Prim2SF x) as [s|s| |s m e]; try contradiction;
    destruct (Prim2SF y) as [s'|s'| |s' m' e']; try contradiction; cbn; auto.
  destruct s, s'; auto.
Qed.

Lemma sqrt_zero_or_nan x : zero_or_nan x -> zero_or_nan (sqrt x).
Proof.
  unfold zero_or_nan. rewrite sqrt_spec. unfold SF64sqrt.
  destruct (Prim2SF x) as [s|s| |s m e]; try contradiction; cbn; auto.
Qed.

Lemma div_zero_or_nan x y : zero_or_nan x -> zero_or_nan (x / y).
Proof.
  unfold zero_or_nan. rewrite div_spec. unfold SF64div.
  destruct (Prim2SF x) as [s|s| |s m e]; try contradiction;
    destruct (Prim2SF y) as [s'|s'| |s' m' e']; cbn; auto.
Qed.

Lemma div_zero_or_nan_zero_or_nan x y : zero_or_nan x -> zero_or_nan y -> x / y = nan.
Proof.
  unfold zero_or_nan. intros Hx Hy. apply float_is_nan. rewrite div_spec. unfold SF64div.
  destruct (Prim2SF x) as [s|s| |s m e]; try contradiction;
    destruct (Prim2SF y) as [s'|s'| |s' m' e']; try contradiction; reflexivity.
Qed.

Lemma div_nan_l y : nan / y = nan.
Proof.
  apply float_is_nan. rewrite div_spec. reflexivity.
Qed.

Lemma clip_nan : Corr64.clip nan = nan.
Proof. reflexivity. Qed.

Lemma float_mul_comm x y : x * y = y * x.
Proof.
  apply Prim2SF_inj. rewrite !mul_spec. unfold SF64mul.
  destruct (Prim2SF x) as [s|s| |s m e];
    destruct (Prim2SF y) as [s'|s'| |s' m' e']; cbn; try reflexivity;
    try (now rewrite xorb_comm).
  now rewrite xorb_comm, Pos.mul_comm, Z.add_comm.
Qed.

Lemma dot64_comm (a b : list PrimFloat.float) : Corr64.dot a b = Corr64.dot b a.
Proof.
  unfold Corr64.dot. f_equal. revert b.
  induction a as [|x a IH]; intros [|y b]; cbn [combine map]; try reflexivity.
  cbn [fst snd]. now rewrite float_mul_comm, IH.
Qed.

Lemma sum_zero_or_nan (l : list PrimFloat.float) :
  Forall zero_or_nan l -> zero_or_nan (Corr64.sum l).
Proof.
  unfold Corr64.sum. assert (H0 : zero_or_nan 0) by exact I.
  revert H0. generalize 0 as acc. intros acc Hacc H. revert acc Hacc.
  induction H as [|x l Hx _ IH]; intros acc Hacc; [exact Hacc|].
  cbn [fold_left]. apply IH. now apply add_zero_or_nan.
Qed.

Lemma dot_zero_dot : zero_dot Corr64.dot.
Proof.
  intros a b H. unfold Corr64.dot. apply sum_zero_or_nan.
  apply Forall_forall. intros p Hp. apply in_map_iff in Hp.
  destruct Hp as [[x y] [<- Hin]]. cbn [fst snd].
  destruct H as [H|H]; rewrite forallb_forall in H.
  - apply mul_zero_or_nan_l, is_zero_zero_or_nan, H. eapply in_combine_l, Hin.
  - apply mul_zero_or_nan_r, is_zero_zero_or_nan, H. eapply in_combine_r, Hin.
Qed.

Section Generic.
Variable sum_by : list PrimFloat.float -> PrimFloat.float.
Variable dot_by : list PrimFloat.float -> list PrimFloat.float -> PrimFloat.float.

Lemma corrcoef_01_by_no_spread (x y : list PrimFloat.float) :
  zero_dot dot_by ->
  no_spread sum_by x = true \/ no_spread sum_by y = true ->
  corrcoef_01_by sum_by dot_by x y = nan.
Proof.
  intros Hdot H. unfold corrcoef_01_by, no_spread in *.
  set (fact := if _ <=? 0 then 0 else _).
  set (xc := center_by sum_by x) in *. set (yc := center_by sum_by y) in *.
  assert (H01 : zero_or_nan (dot_by xc yc * (1 / fact))) by (apply mul_zero_or_nan_l, Hdot, H).
  destruct H as [H|H].
  - assert (H00 : zero_or_nan (dot_by xc xc * (1 / fact)))
      by (apply mul_zero_or_nan_l, Hdot; now left).
    rewrite (div_zero_or_nan_zero_or_nan _ _ H01 (sqrt_zero_or_nan _ H00)), div_nan_l. apply clip_nan.
  - assert (H11 : zero_or_nan (dot_by yc yc * (1 / fact)))
      by (apply mul_zero_or_nan_l, Hdot; now left).
    rewrite (div_zero_or_nan_zero_or_nan _ _ (div_zero_or_nan _ _ H01) (sqrt_zero_or_nan _ H11)).
    apply clip_nan.
Qed.

Lemma corrcoef_01_by_swap (x y : list PrimFloat.float) :
  (forall a b, dot_by a b = dot_by b a) -> List.length x = List.length y ->
  corrcoef_01_by sum_by dot_by x y
  = Corr64.clip (entry_by sum_by dot_by x y / sqrt (entry_by sum_by dot_by x x)
                 / sqrt (entry_by sum_by dot_by y y))
  /\ corrcoef_01_by sum_by dot_by y x
     = Corr64.clip (entry_by sum_by dot_by x y / sqrt (entry_by sum_by dot_by y y)
                    / sqrt (entry_by sum_by dot_by x x)).
Proof.
  intros Hsym Hlen. unfold corrcoef_01_by, entry_by.
  rewrite Hlen, (Hsym (center_by sum_by y) (center_by sum_by x)). split; reflexivity.
Qed.

Lemma series_corr_by_within (a b : list (option Z)) :
  (series_corr_by sum_by dot_by a b <? -1) = false
  /\ (1 <? series_corr_by sum_by dot_by a b) = false.
Proof.
  unfold series_corr_by. destruct (Corr64.valid_pairs a b); [split; reflexivity|].
  apply clip64_within.
Qed.

End Generic.

Lemma valid_pairs64_swap (a b : list (option Z)) :
  map fst (Corr64.valid_pairs b a) = map snd (Corr64.valid_pairs a b)
  /\ map snd (Corr64.valid_pairs b a) = map fst (Corr64.valid_pairs a b).
Proof.
  unfold Corr64.valid_pairs. revert b.
  induction a as [|x a IH]; intros [|y b]; cbn [combine flat_map map app];
    try (split; reflexivity).
  destruct (IH b) as [H1 H2].
  destruct x, y; cbn [map app fst snd]; rewrite ?H1, ?H2; split; reflexivity.
Qed.

Lemma sub_self (x : PrimFloat.float) :
  is_finite x = true -> is_zero (x - x) = true.
Proof.
  unfold is_finite, is_zero. rewrite eqb_spec, sub_spec. unfold SF64sub.
  change (Prim2SF 0) with (S754_zero false).
  destruct (Prim2SF x) as [s|s| |s m e]; try discriminate; intros _.
  - destruct s; reflexivity.
  - unfold SFsub. set (k := cond_Zopp s _).
    assert (E : BinIntDef.Z.sub k k = 0%Z) by apply Z.sub_diag.
    rewrite E. reflexivity.
Qed.

(** A constant column whose float64 mean is the constant has no spread. *)
Lemma constant_no_spread (sum_by : list PrimFloat.float -> PrimFloat.float)
      (x : PrimFloat.float) (l : list PrimFloat.float) :
  is_finite x = true -> Forall (eq x) l -> average_by sum_by l = x ->
  no_spread sum_by l = true.
Proof.
  intros Hx Hl Havg. unfold no_spread, center_by. rewrite Havg.
  apply forallb_forall. intros z Hz. apply in_map_iff in Hz.
  destruct Hz as [y [<- Hy]]. rewrite Forall_forall in Hl.
  rewrite <- (Hl y Hy). now apply sub_self.
Qed.

End FloatFacts.



(** ** The script *)

Section ScriptFacts.

Variable observed : bool.
Variable argsort_f64 : list Q -> list nat.
Variable argsort_i64 : list Z -> list nat.

Local Abbreviation body' := (body observed argsort_f64 argsort_i64).
Local Abbreviation run' := (run observed argsort_f64 argsort_i64).

Lemma slider_bounds_ok (d : DataFrame) :
  rows d <> [] -> exists b, slider_bounds d = Ok b.
Proof.
  unfold slider_bounds. destruct (rows d) as [|r rs]; [congruence|].
  intros _. simpl. eauto.
Qed.

Lemma mode_nil : mode [] = [].
Proof. reflexivity. Qed.

Lemma most_common_service_empty (f : DataFrame) :
  rows f = [] -> most_common_service f = Raise KeyError.
Proof. unfold most_common_service. now intros ->. Qed.

(** The script up to the first tab. *)
Lemma body_start (d : DataFrame) (w : Widgets) :
  rows d <> [] ->
  body' 0 w (mkState [d] [])
  = bindM (tab1 argsort_f64 1)
      (fun _ => bindM (tab2 1)
      (fun _ => bindM (tab3 observed 1)
      (fun _ => bindM (tab4 1 (search_term w))
      (fun _ => footer argsort_i64 1))))
      (mkState [d; filtered_df (criteria w) d]
               [sidebar_markdown (len (filtered_df (criteria w) d)) (len d)]).
Proof.
  intros Hne. destruct (slider_bounds_ok d Hne) as [b Hb].
  unfold body, bindM at 1 2 3 4 5, deref, lift, alloc, st. cbn.
  rewrite Hb. reflexivity.
Qed.

(** *** How the stages treat the frames *)

Lemma bindM_invariant {A B} (I : State -> Prop) (m : M A) (k : A -> M B)
      (s : State) :
  I (fst (m s)) -> (forall a s', I s' -> I (fst (k a s'))) ->
  I (fst (bindM m k s)).
Proof.
  unfold bindM. destruct (m s) as [s' [a|e|]]; simpl; auto.
Qed.

Lemma bindM_Ok {A B} (m : M A) (k : A -> M B) (s : State) (b : B) :
  snd (bindM m k s) = Ok b ->
  exists a, snd (m s) = Ok a /\ bindM m k s = k a (fst (m s)).
Proof.
  unfold bindM. destruct (m s) as [s' [a|e|]]; simpl; try discriminate.
  intros _. now exists a.
Qed.

Lemma tab1_heap (ref : nat) (s : State) :
  heap (fst (tab1 argsort_f64 ref s)) = heap s.
Proof.
  unfold tab1, bindM, deref, lift, st. cbn [fst snd heap page].
  destruct (nth_error (heap s) ref) as [f|]; [|reflexivity]. cbn [fst snd heap page].
  destruct (most_common_service f); [|reflexivity|reflexivity]. cbn [fst snd heap page].
  destruct (first _); [|reflexivity|reflexivity]. cbn [fst snd heap page].
  destruct (last_item _); reflexivity.
Qed.

Lemma tab2_heap (ref : nat) (s : State) : heap (fst (tab2 ref s)) = heap s.
Proof.
  unfold tab2, bindM, deref, lift, st. cbn [fst snd heap page].
  destruct (nth_error (heap s) ref) as [f|]; reflexivity.
Qed.

Lemma footer_heap (ref : nat) (s : State) :
  heap (fst (footer argsort_i64 ref s)) = heap s.
Proof.
  unfold footer, bindM, deref, lift, st. cbn [fst snd heap page].
  destruct (nth_error (heap s) ref) as [f|]; reflexivity.
Qed.

Lemma nth_error_update {A} (l : list A) (i : nat) (x y : A) :
  nth_error l i = Some y -> nth_error (update l i x) i = Some x.
Proof.
  revert i. induction l as [|h t IH]; intros [|i]; simpl; try discriminate.
  - reflexivity.
  - apply IH.
Qed.

Lemma nth_error_update_other {A} (l : list A) (i j : nat) (x : A) :
  i <> j -> nth_error (update l i x) j = nth_error l j.
Proof.
  revert i j. induction l as [|h t IH]; intros [|i] [|j] H; simpl;
    try reflexivity; try congruence.
  apply IH. congruence.
Qed.

Lemma tab3_spec (ref : nat) (s : State) (f : DataFrame) :
  nth_error (heap s) ref = Some f ->
  tab3 observed ref s
  = (mkState (update (heap s) ref (assign_age_group f))
             (page s ++ [histogram (map age (rows f))]
                     ++ [line_chart (age_group_satisfaction observed
                                       (assign_age_group f))]),
     Ok tt).
Proof.
  intros H. unfold tab3, bindM, deref, lift, st, setitem_age_group. cbn [fst snd heap page].
  repeat (rewrite ?H, ?(nth_error_update _ _ _ _ H); cbn [fst snd heap page]).
  now rewrite <- app_assoc.
Qed.

Lemma tab3_heap_unbound (ref : nat) (s : State) :
  nth_error (heap s) ref = None -> heap (fst (tab3 observed ref s)) = heap s.
Proof.
  intros H. unfold tab3, bindM, deref, lift, st, setitem_age_group. cbn [fst snd heap page].
  now rewrite H.
Qed.

Lemma tab4_heap (ref : nat) (term : string) (s : State) :
  exists extra, heap (fst (tab4 ref term s)) = heap s ++ extra.
Proof.
  unfold tab4, bindM, deref, lift, st, alloc, ret.
  destruct (String.eqb term "").
  - exists []. rewrite app_nil_r.
    destruct (nth_error (heap s) ref); reflexivity.
  - cbn [fst snd heap page]. destruct (nth_error (heap s) ref) as [f|]; cbn [fst snd heap page];
      [|exists []; now rewrite app_nil_r].
    destruct (search_df term f) as [d| |]; cbn [fst snd heap page];
      [|exists []; now rewrite app_nil_r|exists []; now rewrite app_nil_r].
    exists [d]. rewrite nth_error_app2, Nat.sub_diag by lia. reflexivity.
Qed.

(** With no search term [search_df] is the filtered frame object itself:
    the table and the export show the frame as line 173 left it. *)
Lemma tab4_no_search (ref : nat) (s : State) (f : DataFrame) :
  nth_error (heap s) ref = Some f ->
  tab4 ref "" s
  = (mkState (heap s)
             (page s ++ [dataframe (selected_columns f)]
                     ++ [download_button (to_csv f)]),
     Ok tt).
Proof.
  intros H. unfold tab4. cbn [String.eqb].
  unfold bindM, deref, lift, st, ret. cbn [fst snd heap page].
  rewrite H. cbn [fst snd heap page]. now rewrite <- app_assoc.
Qed.

Lemma footer_page (ref : nat) (s : State) (e : element) :
  In e (page s) -> In e (page (fst (footer argsort_i64 ref s))).
Proof.
  intros H. unfold footer, bindM, deref, lift, st. cbn [fst snd heap page].
  destruct (nth_error (heap s) ref) as [f|]; cbn [fst snd heap page];
    [apply in_or_app; now left | exact H].
Qed.

(** On an empty filtered frame the first tab shows the three metrics
    that have a value for "no data" and stops at the fourth. *)
Lemma tab1_empty (ref : nat) (s : State) (f : DataFrame) :
  nth_error (heap s) ref = Some f -> rows f = [] ->
  tab1 argsort_f64 ref s
  = (mkState (heap s)
             (page s ++ [ metric_average_satisfaction NaN;
                          metric_average_stay NaN;
                          metric_total_patients 0 ]),
     Raise KeyError).
Proof.
  intros H Hnil. unfold tab1, bindM, deref, lift, st.
  cbn [fst snd heap page]. rewrite H. cbn [fst snd heap page].
  rewrite (most_common_service_empty f Hnil).
  unfold avg_satisfaction, avg_stay, total_patients, len. rewrite Hnil.
  cbn [map dropna flat_map mean List.length Z.of_nat].
  now rewrite <- !app_assoc.
Qed.

Lemma bindM_step {A B} (m : M A) (k : A -> M B) (s s' : State) (a : A) :
  m s = (s', Ok a) -> bindM m k s = k a s'.
Proof. unfold bindM. now intros ->. Qed.

(** A run that reaches its end leaves the store as loaded, the filtered
    frame with the age groups assigned, and possibly the frame of the
    search; without a search term the download is the export of the
    changed filtered frame. *)
Lemma body_Ok (d : DataFrame) (w : Widgets) :
  snd (body' 0 w (mkState [d] [])) = Ok tt ->
  exists extra pg,
    fst (body' 0 w (mkState [d] []))
    = mkState ([d; assign_age_group (filtered_df (criteria w) d)] ++ extra) pg
    /\ (search_term w = ""%string ->
        In (download_button
              (to_csv (assign_age_group (filtered_df (criteria w) d)))) pg).
Proof.
  destruct (rows d) as [|r0 rs] eqn:Hrows.
  { unfold body, bindM, deref, lift. cbn [fst snd heap page nth_error].
    unfold slider_bounds. rewrite Hrows. cbn [map snd]. discriminate. }
  assert (Hne : rows d <> []) by (rewrite Hrows; discriminate).
  rewrite (body_start d w Hne).
  set (f := filtered_df (criteria w) d).
  set (s0 := mkState [d; f] _).
  intros H.
  destruct (bindM_Ok _ _ _ _ H) as [[] [_ E]]. rewrite E in H |- *. clear E.
  pose proof (tab1_heap 1 s0) as H1.
  set (s1 := fst (tab1 argsort_f64 1 s0)) in *.
  destruct (bindM_Ok _ _ _ _ H) as [[] [_ E]]. rewrite E in H |- *. clear E.
  pose proof (tab2_heap 1 s1) as H2. rewrite H1 in H2.
  set (s2 := fst (tab2 1 s1)) in *. cbn [heap s0] in H2.
  rewrite (bindM_step _ _ _ _ _ (tab3_spec 1 s2 f ltac:(now rewrite H2)))
    in H |- *.
  rewrite H2 in H |- *. cbn [update] in H |- *.
  set (s3 := mkState [d; assign_age_group f] _) in *.
  destruct (bindM_Ok _ _ _ _ H) as [[] [_ E]]. rewrite E in H |- *. clear E.
  destruct (tab4_heap 1 (search_term w) s3) as [extra Hx].
  cbn [heap s3] in Hx.
  pose proof (fun Hterm : search_term w = ""%string =>
                f_equal fst (eq_ind_r (fun t => tab4 1 t s3 = _)
                   (tab4_no_search 1 s3 (assign_age_group f) eq_refl) Hterm))
    as Hpage.
  cbn [fst] in Hpage.
  set (s4 := fst (tab4 1 (search_term w) s3)) in *.
  pose proof (footer_heap 1 s4) as Hf.
  pose proof (footer_page 1 s4) as Hp.
  destruct (footer argsort_i64 1 s4) as [[h p] r] eqn:Ef.
  cbn [fst heap page] in Hf, Hp |- *. exists extra, p. split.
  - now rewrite Hf, Hx.
  - intros Hterm. apply Hp. rewrite (Hpage Hterm). cbn [page].
    apply in_or_app. right. apply in_or_app. right. now left.
Qed.


(** The store object is the same frame at the end of every run, however
    the run ends. *)
Lemma body_store (d : DataFrame) (w : Widgets) :
  nth_error (heap (fst (body' 0 w (mkState [d] [])))) 0 = Some d.
Proof.
  destruct (rows d) as [|r0 rs] eqn:Hrows.
  { unfold body, bindM, deref, lift. cbn [fst snd heap page nth_error].
    unfold slider_bounds. now rewrite Hrows. }
  assert (Hne : rows d <> []) by (rewrite Hrows; discriminate).
  rewrite (body_start d w Hne).
  apply (bindM_invariant (fun s => nth_error (heap s) 0 = Some d)).
  { now rewrite tab1_heap. }
  intros _ s1 I1.
  apply (bindM_invariant (fun s => nth_error (heap s) 0 = Some d)).
  { now rewrite tab2_heap. }
  intros _ s2 I2.
  apply (bindM_invariant (fun s => nth_error (heap s) 0 = Some d)).
  { destruct (nth_error (heap s2) 1) as [f|] eqn:E.
    - rewrite (tab3_spec 1 s2 f E). cbn [fst heap].
      now rewrite nth_error_update_other by discriminate.
    - now rewrite tab3_heap_unbound. }
  intros _ s3 I3.
  apply (bindM_invariant (fun s => nth_error (heap s) 0 = Some d)).
  { destruct (tab4_heap 1 (search_term w) s3) as [extra ->].
    rewrite nth_error_app1; [exact I3|].
    apply nth_error_Some. congruence. }
  intros _ s4 I4. now rewrite footer_heap.
Qed.


End ScriptFacts.

Lemma bindM_raise {A B} (m : M A) (k : A -> M B) (s s' : State) (e : exn) :
  m s = (s', Raise e) -> bindM m k s = (s', Raise e).
Proof. unfold bindM. now intros ->. Qed.

Lemma take_nil {A} (idx : list nat) : take (@nil A) idx = [].
Proof.
  induction idx as [|i idx IH]; [reflexivity|].
  cbn [take flat_map]. destruct i; exact IH.
Qed.

Lemma load_patients : load_data (Some patients_csv) = Ok patients.
Proof. vm_compute. reflexivity. Qed.

(** C1.  The claim fails on the code: whenever the store has rows and the
    selection leaves none, the filtered frame has zero rows and the page
    shows the count 0 and [nan] for the two means, but the "most common
    service" metric of line 96 looks up label 0 of an empty [mode()] and
    the run ends there in a [KeyError].  The aggregates of the later
    lines are defined on the empty frame (no group means, no counts, a
    [nan] coefficient), except for [index[0]] of line 122, which would
    raise an [IndexError]. *)
Theorem C1_empty_selection_ends_in_KeyError
        (observed : bool) (argsort_f64 : list Q -> list nat)
        (argsort_i64 : list Z -> list nat) (d : DataFrame) (w : Widgets) :
  rows d <> [] ->
  rows (filtered_df (criteria w) d) = [] ->
  let final := body observed argsort_f64 argsort_i64 0 w (mkState [d] []) in
  let f := filtered_df (criteria w) d in
  snd final = Raise KeyError
  /\ heap (fst final) = [d; f]
  /\ page (fst final) = [ sidebar_markdown 0 (len d);
                          metric_average_satisfaction NaN;
                          metric_average_stay NaN;
                          metric_total_patients 0 ]
  /\ service_satisfaction argsort_f64 f = []
  /\ first (service_satisfaction argsort_f64 f) = Raise IndexError
  /\ service_counts argsort_i64 f = []
  /\ correlation f = PrimFloat.nan.
Proof.
  intros Hne Hnil final f. subst final.
  rewrite (body_start observed argsort_f64 argsort_i64 d w Hne).
  fold f. change (rows f = []) in Hnil.
  rewrite (bindM_raise _ _ _ _ _
             (tab1_empty argsort_f64 1
                (mkState [d; f] [sidebar_markdown (len f) (len d)]) f
                eq_refl Hnil)).
  cbn [fst snd heap page app].
  assert (Hss : service_satisfaction argsort_f64 f = []).
  { unfold service_satisfaction, sort_values_desc, groupby_service_mean.
    rewrite Hnil. cbn. now rewrite take_nil. }
  split; [reflexivity|]. split; [reflexivity|]. split.
  { unfold len. rewrite Hnil. reflexivity. }
  split; [exact Hss|]. split; [now rewrite Hss|]. split.
  - unfold service_counts, value_counts. rewrite Hnil. cbn. now rewrite take_nil.
  - unfold correlation. rewrite Hnil. reflexivity.
Qed.

Lemma C1_cleared_multiselect_witness :
  snd (snd (run false (stable_argsort Qle_bool) (stable_argsort Z.leb)
                None (Some patients_csv) none_selected))
  = Raise KeyError.
Proof.
  unfold run, cached_load_data. rewrite load_patients.
  apply (C1_empty_selection_ends_in_KeyError
           false (stable_argsort Qle_bool) (stable_argsort Z.leb)
           patients none_selected).
  - discriminate.
  - reflexivity.
Defined.

Lemma assign_age_group_rows (f : DataFrame) :
  map (fun r => set_age_group r None) (rows (assign_age_group f))
  = map (fun r => set_age_group r None) (rows f).
Proof.
  unfold assign_age_group. cbn [rows]. rewrite map_map. reflexivity.
Qed.



(** ** The cache and determinism *)

Section CacheFacts.

Variable observed : bool.
Variable argsort_f64 : list Q -> list nat.
Variable argsort_i64 : list Z -> list nat.

Local Abbreviation run'' := (run observed argsort_f64 argsort_i64).

(** A cache a session holds while the file has one content is empty or
    holds what [load_data] returns for that content. *)
Lemma cache_of_coherent (file : option Csv.table) (c : option DataFrame) :
  cache_of observed argsort_f64 argsort_i64 file c ->
  c = None \/ exists d, c = Some d /\ load_data file = Ok d.
Proof.
  induction 1 as [|c w _ IH]; [now left|].
  unfold run, cached_load_data.
  destruct IH as [->|[d [-> Hd]]].
  - destruct (load_data file) as [d|e|] eqn:E; cbn [fst]; [right|left|left];
      try reflexivity. now exists d.
  - cbn [fst]. right. now exists d.
Qed.

Lemma run_of_coherent_cache (file : option Csv.table) (c : option DataFrame)
      (w : Widgets) :
  c = None \/ (exists d, c = Some d /\ load_data file = Ok d) ->
  snd (run'' c file w) = snd (run'' None file w).
Proof.
  intros [->|[d [-> Hd]]]; [reflexivity|].
  unfold run, cached_load_data. now rewrite Hd.
Qed.

End CacheFacts.

(** C10 (as amended).  Two runs with the same widget values, in sessions
    whose cache is empty or was filled from the content the file has,
    build the same frames (the store, the filtered frame, the frame of
    the search), render the same page (every metric, chart series, note,
    table, the exported CSV and the counts) and end the same way. *)
Theorem C10_runs_agree_on_coherent_caches
        (observed : bool) (argsort_f64 : list Q -> list nat)
        (argsort_i64 : list Z -> list nat)
        (file : option Csv.table) (w : Widgets) (c1 c2 : option DataFrame) :
  cache_of observed argsort_f64 argsort_i64 file c1 ->
  cache_of observed argsort_f64 argsort_i64 file c2 ->
  snd (run observed argsort_f64 argsort_i64 c1 file w)
  = snd (run observed argsort_f64 argsort_i64 c2 file w).
Proof.
  intros H1 H2.
  rewrite (run_of_coherent_cache observed argsort_f64 argsort_i64 file c1 w
             (cache_of_coherent _ _ _ _ _ H1)).
  rewrite (run_of_coherent_cache observed argsort_f64 argsort_i64 file c2 w
             (cache_of_coherent _ _ _ _ _ H2)).
  reflexivity.
Qed.

Lemma C10_runs_agree_witness :
  snd (run false (stable_argsort Qle_bool) (stable_argsort Z.leb)
           None (Some patients_csv) all_selected)
  = snd (run false (stable_argsort Qle_bool) (stable_argsort Z.leb)
             (fst (run false (stable_argsort Qle_bool) (stable_argsort Z.leb)
                       None (Some patients_csv) surgery_selected))
             (Some patients_csv) all_selected).
Proof.
  apply (C10_runs_agree_on_coherent_caches
           false (stable_argsort Qle_bool) (stable_argsort Z.leb)
           (Some patients_csv) all_selected).
  - apply cache_empty.
  - apply (cache_after_run false (stable_argsort Qle_bool)
             (stable_argsort Z.leb) (Some patients_csv) None surgery_selected).
    apply cache_empty.
Defined.

(** C10 as stated fails across a change of the file: the cache is keyed
    by the function alone.  A session that first ran when the file was
    [patients_csv] and a fresh session, both run with the same widget
    values over the later content of the file, render different pages
    (the first still counts three records). *)
Lemma C10_stale_cache_differs :
  snd (run false (stable_argsort Qle_bool) (stable_argsort Z.leb)
           (fst (run false (stable_argsort Qle_bool) (stable_argsort Z.leb)
                     None (Some patients_csv) all_selected))
           (Some patients_csv_later) all_selected)
  <> snd (run false (stable_argsort Qle_bool) (stable_argsort Z.leb)
              None (Some patients_csv_later) all_selected).
Proof.
  intros H.
  apply (f_equal (fun x => nth_error (page (fst x)) 0)) in H.
  lazy in H. discriminate H.
Qed.

(** ** The round trip through the file *)

Lemma Z_of_str_of_Z (z : Z) : Z_of_str (str_of_Z z) = Some z.
Proof.
  unfold Z_of_str, str_of_Z. rewrite NilZero.isi.
  - simpl. f_equal. apply DecimalZ.of_to.
  - destruct z; simpl; try discriminate.
    intros H. injection H as H. now apply Unsigned.to_uint_nonnil in H.
  - destruct z; simpl; try discriminate.
    intros H. injection H as H. now apply Unsigned.to_uint_nonnil in H.
Qed.

Lemma is_na_In (f : string) : is_na f = true -> In f na_values.
Proof.
  unfold is_na. rewrite existsb_exists. intros [x [Hx E]].
  apply String.eqb_eq in E. now subst.
Qed.

Lemma is_int_not_na (f : string) : is_int f = true -> is_na f = false.
Proof.
  intros H. destruct (is_na f) eqn:E; [|reflexivity].
  apply is_na_In in E. unfold na_values in E. simpl in E.
  repeat (destruct E as [<-|E]; [vm_compute in H; discriminate H|]).
  destruct E.
Qed.

Lemma text_like_not_na (f : string) : text_like f = true -> is_na f = false.
Proof.
  unfold text_like. rewrite !andb_true_iff, !negb_true_iff. tauto.
Qed.

Lemma letter_not_digit (c : ascii) (d : option Decimal.uint) :
  is_letter c = true -> uint_of_char c d = None /\ Ascii.eqb c "-" = false.
Proof.
  intros H. destruct d as [d|]; (split; [|
    destruct c as [[] [] [] [] [] [] [] []]; vm_compute in H; try discriminate H; reflexivity]).
  - destruct c as [[] [] [] [] [] [] [] []]; vm_compute in H; try discriminate H; reflexivity.
  - reflexivity.
Qed.

Lemma uint_of_char_None (c : ascii) : uint_of_char c None = None.
Proof. reflexivity. Qed.

(** A string with a letter in it holds no digits-only text. *)
Lemma letter_no_uint (f : string) :
  existsb is_letter (list_ascii_of_string f) = true ->
  NilEmpty.uint_of_string f = None.
Proof.
  induction f as [|c f IH]; [discriminate|].
  cbn [list_ascii_of_string existsb NilEmpty.uint_of_string].
  rewrite orb_true_iff. intros [Hc|Hf].
  - now apply letter_not_digit.
  - now rewrite (IH Hf).
Qed.

Lemma text_like_letter (f : string) :
  text_like f = true -> existsb is_letter (list_ascii_of_string f) = true.
Proof.
  unfold text_like. rewrite !andb_true_iff. intros [[[H _] _] _].
  apply existsb_exists in H. destruct H as [c [Hc Hl]].
  apply andb_true_iff in Hl. apply existsb_exists. exists c. tauto.
Qed.

Lemma text_like_not_int (f : string) : text_like f = true -> is_int f = false.
Proof.
  intros H. apply text_like_letter in H.
  unfold is_int, Z_of_str, NilZero.int_of_string.
  destruct f as [|c f]; [discriminate|].
  cbn [list_ascii_of_string existsb] in H.
  destruct (Ascii.eqb c "-") eqn:Em.
  - apply Ascii.eqb_eq in Em. subst c.
    change (is_letter "-") with false in H. cbn [orb] in H.
    unfold NilZero.uint_of_string. destruct f as [|c' f']; [reflexivity|].
    now rewrite (letter_no_uint _ H).
  - unfold NilZero.uint_of_string.
    rewrite (letter_no_uint (String c f)); [reflexivity|].
    exact H.
Qed.

Lemma digit_val_digit (k : Z) : 0 <= k <= 9 -> digit_val (digit k) = Some k.
Proof.
  intros H. unfold digit_val, digit.
  rewrite nat_ascii_embedding by lia.
  rewrite Z2Nat.id by lia.
  destruct (Z.leb_spec 48 (48 + k)); [|lia].
  destruct (Z.leb_spec (48 + k) 57); [|lia].
  cbn [andb]. f_equal. lia.
Qed.

Lemma iso_fields_format_date (t : Timestamp) :
  0 <= year t <= 9999 -> 0 <= month t <= 99 -> 0 <= day t <= 99 ->
  iso_fields (format_date t) = Some t.
Proof.
  intros Hy Hm Hd. unfold iso_fields, format_date.
  rewrite list_ascii_of_string_of_list_ascii.
  cbn [Ascii.eqb Bool.eqb andb].
  rewrite !digit_val_digit.
  - destruct t as [y m d]. cbn [year month day] in *.
    f_equal. f_equal; Z.div_mod_to_equations; lia.
  - cbn [day]. Z.div_mod_to_equations; lia.
  - Z.div_mod_to_equations; lia.
  - Z.div_mod_to_equations; lia.
  - Z.div_mod_to_equations; lia.
  - Z.div_mod_to_equations; lia.
  - Z.div_mod_to_equations; lia.
  - Z.div_mod_to_equations; lia.
  - Z.div_mod_to_equations; lia.
Qed.

Lemma iso_not_na (f : string) (t : Timestamp) :
  iso_fields f = Some t -> is_na f = false.
Proof.
  intros H. destruct (is_na f) eqn:E; [|reflexivity].
  apply is_na_In in E. unfold na_values in E. simpl in E.
  repeat (destruct E as [<-|E]; [vm_compute in H; discriminate H|]).
  destruct E.
Qed.

Lemma date_ok_bounds (t : Timestamp) :
  valid_date t && year_in_range (year t) = true ->
  0 <= year t <= 9999 /\ 0 <= month t <= 99 /\ 0 <= day t <= 99.
Proof.
  unfold valid_date, year_in_range, days_in_month.
  rewrite !andb_true_iff, !Z.leb_le. intros [[[[H1 H2] H3] H4] [H5 H6]].
  repeat split; try lia.
  destruct (month t =? 2); [destruct (is_leap (year t)); lia|].
  destruct ((month t =? 4) || (month t =? 6) || (month t =? 9) || (month t =? 11));
    lia.
Qed.

Lemma date_cell_date_text (v : date_value) :
  date_ok v = true -> date_cell (date_text v) = Some (as_read v).
Proof.
  destruct v as [s|t|]; simpl; [discriminate| |reflexivity].
  intros H. destruct (date_ok_bounds t H) as (Hy & Hm & Hd).
  unfold date_cell.
  rewrite (iso_not_na _ t) by now apply iso_fields_format_date.
  rewrite iso_fields_format_date by assumption.
  apply andb_true_iff in H. destruct H as [_ H]. now rewrite H.
Qed.

Lemma to_datetime_as_read (v : date_value) :
  date_ok v = true -> to_datetime (as_read v) = Ok v.
Proof.
  destruct v as [s|t|]; simpl; [discriminate| |reflexivity].
  intros H. destruct (date_ok_bounds t H) as (Hy & Hm & Hd).
  rewrite iso_fields_format_date by assumption.
  apply andb_true_iff in H. destruct H as [H1 H2]. now rewrite H1, H2.
Qed.

Lemma label_cell_label_text (g : option AgeLabel) :
  label_cell (label_text g) = Some g.
Proof. destruct g as [[]|]; reflexivity. Qed.

Lemma forallb_witness {A} (p : A -> bool) (l : list A) (x : A) :
  In x l -> p x = false -> forallb p l = false.
Proof.
  intros Hin Hp. destruct (forallb p l) eqn:E; [|reflexivity].
  rewrite forallb_forall in E. rewrite (E x Hin) in Hp. discriminate.
Qed.

Lemma is_int_str_of_Z (z : Z) : is_int (str_of_Z z) = true.
Proof. unfold is_int. now rewrite Z_of_str_of_Z. Qed.

(** A stable column comes back with the type and the values it had. *)
Lemma infer_stable_column (cs : list cell) :
  stable_column cs = true ->
  exists t, infer (map cell_text cs) = Some t
            /\ Forall (fun c => cell_of t (cell_text c) = c) cs.
Proof.
  destruct cs as [|c0 cs]; [intros _; exists object; split; [reflexivity|constructor]|].
  set (l := c0 :: cs). unfold stable_column. rewrite !orb_true_iff.
  intros [[Hint|Hnan]|Hstr].
  - exists int64. rewrite forallb_forall in Hint. split.
    + unfold infer. change (map cell_text l) with (cell_text c0 :: map cell_text cs).
      cbv beta iota. change (cell_text c0 :: map cell_text cs) with (map cell_text l).
      rewrite (forallb_witness is_na (map cell_text l) (cell_text c0)).
      * assert (H : forallb is_int (map cell_text l) = true); [|now rewrite H].
        apply forallb_forall. intros f Hf. apply in_map_iff in Hf.
        destruct Hf as [c [<- Hc]]. specialize (Hint c Hc).
        destruct c; try discriminate. apply is_int_str_of_Z.
      * now left.
      * specialize (Hint c0 (or_introl eq_refl)). destruct c0; try discriminate.
        apply is_int_not_na, is_int_str_of_Z.
    + apply Forall_forall. intros c Hc. specialize (Hint c Hc).
      destruct c; try discriminate. simpl. now rewrite Z_of_str_of_Z.
  - exists float64. rewrite forallb_forall in Hnan. split.
    + unfold infer. change (map cell_text l) with (cell_text c0 :: map cell_text cs).
      cbv beta iota. change (cell_text c0 :: map cell_text cs) with (map cell_text l).
      assert (H : forallb is_na (map cell_text l) = true); [|now rewrite H].
      apply forallb_forall. intros f Hf. apply in_map_iff in Hf.
      destruct Hf as [c [<- Hc]]. specialize (Hnan c Hc).
      destruct c; try discriminate. reflexivity.
    + apply Forall_forall. intros c Hc. specialize (Hnan c Hc).
      destruct c; try discriminate. reflexivity.
  - apply andb_true_iff in Hstr. destruct Hstr as [Hall Hex].
    rewrite forallb_forall in Hall. apply existsb_exists in Hex.
    destruct Hex as [cx [Hcx Htx]]. destruct cx as [|sx|]; try discriminate.
    exists object. split.
    + unfold infer. change (map cell_text l) with (cell_text c0 :: map cell_text cs).
      cbv beta iota. change (cell_text c0 :: map cell_text cs) with (map cell_text l).
      rewrite (forallb_witness is_na (map cell_text l) sx);
        [|apply (in_map cell_text l (CStr sx) Hcx)|now apply text_like_not_na].
      rewrite (forallb_witness is_int (map cell_text l) sx);
        [|apply (in_map cell_text l (CStr sx) Hcx)|now apply text_like_not_int].
      assert (H1 : forallb (fun f => is_na f || is_int f || text_like f)
                           (map cell_text l) = true).
      { apply forallb_forall. intros f Hf. apply in_map_iff in Hf.
        destruct Hf as [c [<- Hc]]. specialize (Hall c Hc).
        destruct c as [|s|]; try discriminate; simpl; [|reflexivity].
        rewrite <- orb_assoc, Hall. apply orb_true_r. }
      assert (H2 : existsb text_like (map cell_text l) = true).
      { apply existsb_exists. exists sx. split; [|assumption].
        apply (in_map cell_text l (CStr sx) Hcx). }
      now rewrite H1, H2.
    + apply Forall_forall. intros c Hc.
      specialize (Hall c Hc). destruct c as [|s|]; try discriminate;
        [|reflexivity].
      simpl. apply orb_true_iff in Hall.
      destruct Hall as [H|H];
        [now rewrite (is_int_not_na _ H) | now rewrite (text_like_not_na _ H)].
Qed.

Lemma export_fields (d : DataFrame) (r : Row) :
  columns d = export_columns ->
  map (field_text d r) (columns d)
  = [ cell_text (patient_id r); cell_text (name r); str_of_Z (age r);
      service r; date_text (arrival_date r); date_text (departure_date r);
      str_of_Z (satisfaction r);
      stay_text (length_of_stay_dtype d) (length_of_stay r);
      label_text (age_group r) ].
Proof. intros ->. reflexivity. Qed.

Lemma exportable_spec (r : Row) :
  exportable r = true ->
  text_like (service r) = true
  /\ date_ok (arrival_date r) = true /\ date_ok (departure_date r) = true
  /\ length_of_stay r = stay r.
Proof.
  unfold exportable. rewrite !andb_true_iff.
  intros [[[Hs Ha] Hd] Hl]. repeat split; try assumption.
  unfold option_Z_eqb in Hl.
  destruct (length_of_stay r), (stay r); try discriminate; [|reflexivity].
  apply Z.eqb_eq in Hl. now subst.
Qed.

Lemma read_row_export (id_t name_t : dtype) (dt : dtype) (r : Row) :
  exportable r = true ->
  cell_of id_t (cell_text (patient_id r)) = patient_id r ->
  cell_of name_t (cell_text (name r)) = name r ->
  read_row id_t name_t ["length_of_stay"; "age_group"]%string
    [ cell_text (patient_id r); cell_text (name r); str_of_Z (age r);
      service r; date_text (arrival_date r); date_text (departure_date r);
      str_of_Z (satisfaction r); stay_text dt (length_of_stay r);
      label_text (age_group r) ]
  = Some (row_as_read r).
Proof.
  intros He Hid Hname.
  destruct (exportable_spec r He) as (Hs & Ha & Hd & _).
  unfold read_row. rewrite !Z_of_str_of_Z.
  rewrite (date_cell_date_text _ Ha), (date_cell_date_text _ Hd).
  change (read_extras _ _) with (label_cell (label_text (age_group r))).
  rewrite label_cell_label_text, Hs, Hid, Hname. reflexivity.
Qed.

Lemma map_result_map_Ok {A B C} (f : B -> result C) (h : A -> B) (g : A -> C)
      (l : list A) :
  (forall x, In x l -> f (h x) = Ok (g x)) ->
  map_result f (map h l) = Ok (map g l).
Proof.
  induction l as [|x l IH]; intros H; [reflexivity|].
  cbn [map_result map]. rewrite (H x (or_introl eq_refl)). cbn [bind].
  rewrite IH by (intros; apply H; now right). reflexivity.
Qed.

Lemma combine_map3 {A B C D} (f : A -> B) (g : A -> C) (h : A -> D) (l : list A) :
  combine (map f l) (combine (map g l) (map h l))
  = map (fun x => (f x, (g x, h x))) l.
Proof. induction l as [|x l IH]; [reflexivity|]. simpl. now rewrite IH. Qed.

Lemma restore_row (r : Row) :
  exportable r = true ->
  set_length_of_stay
    (set_dates (row_as_read r) (arrival_date r) (departure_date r))
    (stay (set_dates (row_as_read r) (arrival_date r) (departure_date r)))
  = r.
Proof.
  intros He. destruct (exportable_spec r He) as (_ & _ & _ & Hl).
  destruct r. unfold set_length_of_stay, set_dates, row_as_read, stay in *.
  cbn in *. now rewrite <- Hl.
Qed.

(** The frame [load_data] builds from the export of a frame with the
    export's columns, rows as [load_data] builds them and identifier and
    name columns that keep their type: the same columns and the same
    rows. *)
Lemma load_data_to_csv (d : DataFrame) :
  columns d = export_columns ->
  forallb exportable (rows d) = true ->
  stable_column (map patient_id (rows d)) = true ->
  stable_column (map name (rows d)) = true ->
  exists name_t stay_t,
    load_data (Some (to_csv d))
    = Ok (mkDataFrame export_columns name_t stay_t (rows d)).
Proof.
  intros Hcols Hexp Hids Hnames. rewrite forallb_forall in Hexp.
  destruct (infer_stable_column _ Hids) as [id_t [Hinf_id Hcell_id]].
  destruct (infer_stable_column _ Hnames) as [name_t [Hinf_name Hcell_name]].
  rewrite map_map in Hinf_id, Hinf_name.
  rewrite Forall_map in Hcell_id, Hcell_name.
  rewrite Forall_forall in Hcell_id, Hcell_name.
  unfold load_data, read_csv, to_csv. cbn [Csv.header Csv.body].
  rewrite Hcols.
  destruct (list_eq_dec string_dec (firstn 7 export_columns) base_columns)
    as [_|n]; [|exfalso; now apply n].
  assert (Hbody : map (fun r => map (field_text d r) export_columns) (rows d)
                  = map (fun r =>
                           [ cell_text (patient_id r); cell_text (name r);
                             str_of_Z (age r); service r;
                             date_text (arrival_date r);
                             date_text (departure_date r);
                             str_of_Z (satisfaction r);
                             stay_text (length_of_stay_dtype d) (length_of_stay r);
                             label_text (age_group r) ]) (rows d)).
  { apply map_ext. intros r. rewrite <- Hcols. now apply export_fields. }
  rewrite Hbody. unfold column. rewrite !map_map. cbn [nth].
  rewrite Hinf_id, Hinf_name.
  assert (Hrows : read_rows id_t name_t (skipn 7 export_columns)
                    (map (fun r =>
                           [ cell_text (patient_id r); cell_text (name r);
                             str_of_Z (age r); service r;
                             date_text (arrival_date r);
                             date_text (departure_date r);
                             str_of_Z (satisfaction r);
                             stay_text (length_of_stay_dtype d) (length_of_stay r);
                             label_text (age_group r) ]) (rows d))
                  = Some (map row_as_read (rows d))).
  { change (skipn 7 export_columns) with ["length_of_stay"; "age_group"]%string.
    revert Hexp Hcell_id Hcell_name. generalize (rows d) as rs.
    induction rs as [|r rs IH]; intros Hexp Hcell_id Hcell_name; [reflexivity|].
    cbn [map read_rows].
    rewrite read_row_export;
      [|apply Hexp; now left|apply Hcell_id; now left|apply Hcell_name; now left].
    rewrite IH; [reflexivity| | |]; intros; [apply Hexp|apply Hcell_id|apply Hcell_name];
      now right. }
  rewrite Hrows. cbn [bind]. unfold derive. cbn [rows columns name_dtype].
  rewrite (map_result_map_Ok _ row_as_read arrival_date)
    by (intros r Hr; apply to_datetime_as_read;
        now apply (exportable_spec r (Hexp r Hr))).
  cbn [bind].
  rewrite (map_result_map_Ok _ row_as_read departure_date)
    by (intros r Hr; apply to_datetime_as_read;
        now apply (exportable_spec r (Hexp r Hr))).
  cbn [bind].
  rewrite combine_map3, !map_map. cbn [fst snd].
  assert (Hrestore :
            map (fun x => set_length_of_stay
                            (set_dates (row_as_read x) (arrival_date x)
                                       (departure_date x))
                            (stay (set_dates (row_as_read x) (arrival_date x)
                                             (departure_date x)))) (rows d)
            = rows d).
  { rewrite <- (map_id (rows d)) at 2. apply map_ext_in.
    intros r Hr. apply restore_row. now apply Hexp. }
  rewrite Hrestore. eexists _, _. reflexivity.
Qed.

Lemma exportable_set_age_group (r : Row) (g : option AgeLabel) :
  exportable (set_age_group r g) = exportable r.
Proof. destruct r. reflexivity. Qed.

Lemma search_df_Ok (term : string) (f view : DataFrame) :
  search_df term f = Ok view ->
  columns view = columns f /\ (forall r, In r (rows view) -> In r (rows f)).
Proof.
  unfold search_df. destruct (String.eqb term "").
  - intros E. injection E as <-. now split.
  - destruct (name_dtype f); try discriminate.
    destruct (forallb _ (rows f)); try discriminate.
    destruct (Re.compile term) as [[r|]|]; try discriminate.
    intros E. injection E as <-. split; [reflexivity|].
    intros row H. cbn [boolean_index rows] in H. now apply filter_In in H.
Qed.

Lemma map_result_inv {A B} (f : A -> result B) (l : list A) (ys : list B) :
  map_result f l = Ok ys -> Forall2 (fun x y => f x = Ok y) l ys.
Proof.
  revert ys. induction l as [|x l IH]; intros ys; cbn [map_result].
  - intros E. injection E as <-. constructor.
  - destruct (f x) as [y| |] eqn:Ex; cbn [bind]; try discriminate.
    destruct (map_result f l) as [ys'| |]; cbn [bind]; try discriminate.
    intros E. injection E as <-. constructor; [assumption|now apply IH].
Qed.

Lemma date_cell_not_Date (f : string) (v : date_value) :
  date_cell f = Some v -> forall t, v <> Date t.
Proof.
  unfold date_cell. destruct (is_na f).
  - intros E. injection E as <-. discriminate.
  - destruct (iso_fields f) as [t|]; [|discriminate].
    destruct (year_in_range (year t)); [|discriminate].
    intros E. injection E as <-. discriminate.
Qed.

Lemma to_datetime_date_ok (v a : date_value) :
  (forall t, v <> Date t) -> to_datetime v = Ok a -> date_ok a = true.
Proof.
  intros Hv. destruct v as [s|t|]; cbn [to_datetime].
  - destruct (iso_fields s) as [t|]; [|discriminate].
    destruct (year_in_range (year t)) eqn:Ey; [|discriminate].
    destruct (valid_date t) eqn:Ev; [|discriminate].
    intros E. injection E as <-. cbn [date_ok]. now rewrite Ev, Ey.
  - now destruct (Hv t).
  - intros E. now injection E as <-.
Qed.

Lemma read_row_wf (id_t name_t : dtype) (extras fields : list string) (r : Row) :
  read_row id_t name_t extras fields = Some r ->
  text_like (service r) = true
  /\ (forall t, arrival_date r <> Date t)
  /\ (forall t, departure_date r <> Date t).
Proof.
  unfold read_row.
  destruct fields as [|f0 [|f1 [|f2 [|f3 [|f4 [|f5 [|f6 rest]]]]]]];
    try discriminate.
  destruct (Z_of_str f2); [|discriminate].
  destruct (Z_of_str f6); [|discriminate].
  destruct (date_cell f4) as [arr|] eqn:Ea; [|discriminate].
  destruct (date_cell f5) as [dep|] eqn:Ed; [|discriminate].
  destruct (read_extras extras rest); [|discriminate].
  destruct (text_like f3) eqn:Et; [|discriminate].
  intros E. injection E as <-. cbn [service arrival_date departure_date].
  split; [assumption|]. split; eapply date_cell_not_Date; eassumption.
Qed.

Lemma read_rows_wf (id_t name_t : dtype) (extras : list string)
      (body : list (list string)) (rs : list Row) :
  read_rows id_t name_t extras body = Some rs ->
  Forall (fun r => text_like (service r) = true
                   /\ (forall t, arrival_date r <> Date t)
                   /\ (forall t, departure_date r <> Date t)) rs.
Proof.
  revert rs. induction body as [|fields body IH]; intros rs; cbn [read_rows].
  - intros E. injection E as <-. constructor.
  - destruct (read_row id_t name_t extras fields) as [r|] eqn:Er; [|discriminate].
    destruct (read_rows id_t name_t extras body) as [rs'|]; [|discriminate].
    intros E. injection E as <-. constructor; [|now apply IH].
    eapply read_row_wf; eassumption.
Qed.

(** The rows [load_data] builds: a text service, dates that are [NaT] or
    calendar dates in range, and the stay the dates give. *)
Lemma load_data_rows (t : Csv.table) (df : DataFrame) :
  load_data (Some t) = Ok df ->
  columns df = setitem_columns (Csv.header t) "length_of_stay"
  /\ Forall (fun r => text_like (service r) = true
                      /\ date_ok (arrival_date r) = true
                      /\ date_ok (departure_date r) = true
                      /\ length_of_stay r = stay r) (rows df).
Proof.
  unfold load_data, read_csv.
  destruct (list_eq_dec string_dec _ _); [|discriminate].
  destruct (infer (column 0 (Csv.body t))) as [id_t|]; [|discriminate].
  destruct (infer (column 1 (Csv.body t))) as [name_t|]; [|discriminate].
  destruct (read_rows id_t name_t _ (Csv.body t)) as [rs|] eqn:Er; [|discriminate].
  cbn [bind]. unfold derive. cbn [rows columns name_dtype].
  destruct (map_result _ rs) as [arr| |] eqn:Ea; cbn [bind]; try discriminate.
  destruct (map_result (fun r => to_datetime (departure_date r)) rs)
    as [dep| |] eqn:Ed; cbn [bind]; try discriminate.
  intros E. injection E as <-. cbn [columns rows]. split; [reflexivity|].
  apply read_rows_wf in Er. apply map_result_inv in Ea, Ed.
  rewrite !Forall_map.
  clear -Er Ea Ed. revert arr dep Ea Ed.
  induction Er as [|r rs (Hs & Ha & Hd) _ IH]; intros arr dep Ea Ed.
  - constructor.
  - inversion Ea as [|? a ? arr' Hra Ea']; subst.
    inversion Ed as [|? d ? dep' Hrd Ed']; subst.
    cbn [combine]. constructor; [|now apply IH].
    cbn [fst snd]. destruct r as [pid nm ag sv ad dd sat los grp].
    cbn [set_dates set_length_of_stay service arrival_date departure_date
         length_of_stay patient_id name age satisfaction age_group] in *.
    split; [assumption|]. split; [exact (to_datetime_date_ok ad a Ha Hra)|].
    split; [exact (to_datetime_date_ok dd d Hd Hrd)|reflexivity].
Qed.

(** *** The text of the export and the tokenizer *)

Section CsvFacts.
Import Csv.

Lemma tokenize_unquoted (cs rest cur : list ascii) (fields : list string)
      (rows : list (list string)) :
  needs_quotes cs = false -> existsb outside cs = false ->
  tokenize (cs ++ rest) Unquoted cur fields rows
  = tokenize rest Unquoted (rev cs ++ cur) fields rows.
Proof.
  revert cur. induction cs as [|c cs IH]; intros cur Hq Hc; [reflexivity|].
  cbn [needs_quotes existsb] in Hq, Hc. fold (needs_quotes cs) in Hq.
  apply orb_false_iff in Hq, Hc. destruct Hq as [Hq1 Hq], Hc as [Hc1 Hc].
  apply orb_false_iff in Hq1. destruct Hq1 as [Hq1 Hlf].
  apply orb_false_iff in Hq1. destruct Hq1 as [Hcomma Hquote].
  cbn [app tokenize]. rewrite Hc1, Hquote, Hcomma, Hlf.
  rewrite IH by assumption. cbn [rev]. now rewrite <- app_assoc.
Qed.

Lemma tokenize_quoted (cs rest cur : list ascii) (fields : list string)
      (rows : list (list string)) :
  existsb outside cs = false ->
  tokenize (escape cs ++ quote :: rest) Quoted cur fields rows
  = tokenize rest Closed (rev cs ++ cur) fields rows.
Proof.
  revert cur. induction cs as [|c cs IH]; intros cur Hc.
  - cbn [escape flat_map app tokenize].
    change (outside quote) with false. cbn iota.
    now rewrite Ascii.eqb_refl.
  - cbn [existsb] in Hc. apply orb_false_iff in Hc. destruct Hc as [Hc1 Hc].
    unfold escape. cbn [flat_map]. fold (escape cs).
    destruct (Ascii.eqb c quote) eqn:Eq.
    + apply Ascii.eqb_eq in Eq. subst c.
      cbn [app tokenize]. change (outside quote) with false. cbn iota.
      rewrite Ascii.eqb_refl. rewrite IH by assumption.
      cbn [rev]. now rewrite <- app_assoc.
    + cbn [app tokenize]. rewrite Hc1, Eq. rewrite IH by assumption.
      cbn [rev]. now rewrite <- app_assoc.
Qed.

Lemma end_field_rev (f : string) (fields : list string) :
  end_field (rev (list_ascii_of_string f) ++ []) fields = f :: fields.
Proof.
  unfold end_field. now rewrite app_nil_r, rev_involutive,
    string_of_list_ascii_of_string.
Qed.

(** One field followed by a comma. *)
Lemma tokenize_field_comma (f : string) (rest : list ascii)
      (fields : list string) (rows : list (list string)) :
  writable f = true ->
  tokenize (write_field f ++ comma :: rest) AtStart [] fields rows
  = tokenize rest AtStart [] (f :: fields) rows.
Proof.
  unfold writable, write_field. rewrite negb_true_iff. intros Hw.
  set (cs := list_ascii_of_string f) in *.
  destruct (needs_quotes cs) eqn:Hq.
  - cbn [app tokenize]. change (outside quote) with false.
    rewrite Ascii.eqb_refl. cbn iota. rewrite <- app_assoc. cbn [app].
    rewrite tokenize_quoted by assumption.
    cbn [tokenize]. change (outside comma) with false.
    change (Ascii.eqb comma quote) with false. rewrite Ascii.eqb_refl.
    cbn iota. subst cs. now rewrite end_field_rev.
  - destruct cs as [|c cs'] eqn:Ecs.
    + cbn [app tokenize]. change (outside comma) with false.
      change (Ascii.eqb comma quote) with false. rewrite Ascii.eqb_refl.
      cbn iota. unfold end_field. cbn [rev string_of_list_ascii].
      assert (Ef : f = EmptyString).
      { rewrite <- (string_of_list_ascii_of_string f). fold cs.
        now rewrite Ecs. }
      now rewrite Ef.
    + pose proof Hq as Hq'. pose proof Hw as Hw'.
      cbn [needs_quotes existsb] in Hq, Hw. fold (needs_quotes cs') in Hq.
      apply orb_false_iff in Hq, Hw. destruct Hq as [Hq1 Hq], Hw as [Hc1 Hc].
      apply orb_false_iff in Hq1. destruct Hq1 as [Hq1 Hlf].
      apply orb_false_iff in Hq1. destruct Hq1 as [Hcomma Hquote].
        cbn [app tokenize]. rewrite Hc1, Hquote, Hcomma, Hlf.
      rewrite tokenize_unquoted by assumption.
      cbn [tokenize]. change (outside comma) with false.
      change (Ascii.eqb comma quote) with false. rewrite Ascii.eqb_refl.
      cbn iota. f_equal. unfold end_field. f_equal.
      rewrite <- (string_of_list_ascii_of_string f). fold cs. rewrite Ecs.
      f_equal. cbn [rev]. rewrite rev_app_distr, rev_involutive. reflexivity.
Qed.

(** The last field of a record of at least two, followed by the line
    break. *)
Lemma tokenize_field_lf (f g : string) (rest : list ascii)
      (fields : list string) (rows : list (list string)) :
  writable f = true ->
  tokenize (write_field f ++ lf :: rest) AtStart [] (g :: fields) rows
  = tokenize rest AtStart [] [] (rev (f :: g :: fields) :: rows).
Proof.
  unfold writable, write_field. rewrite negb_true_iff. intros Hw.
  set (cs := list_ascii_of_string f) in *.
  destruct (needs_quotes cs) eqn:Hq.
  - cbn [app tokenize]. change (outside quote) with false.
    rewrite Ascii.eqb_refl. cbn iota. rewrite <- app_assoc. cbn [app].
    rewrite tokenize_quoted by assumption.
    cbn [tokenize]. change (outside lf) with false.
    change (Ascii.eqb lf quote) with false.
    change (Ascii.eqb lf comma) with false. rewrite Ascii.eqb_refl.
    cbn iota. subst cs. now rewrite end_field_rev.
  - destruct cs as [|c cs'] eqn:Ecs.
    + cbn [app tokenize]. change (outside lf) with false.
      change (Ascii.eqb lf quote) with false.
      change (Ascii.eqb lf comma) with false. rewrite Ascii.eqb_refl.
      cbn iota. unfold end_field. cbn [rev string_of_list_ascii app].
      assert (Ef : f = EmptyString).
      { rewrite <- (string_of_list_ascii_of_string f). fold cs.
        now rewrite Ecs. }
      now rewrite Ef.
    + pose proof Hq as Hq'. pose proof Hw as Hw'.
      cbn [needs_quotes existsb] in Hq, Hw. fold (needs_quotes cs') in Hq.
      apply orb_false_iff in Hq, Hw. destruct Hq as [Hq1 Hq], Hw as [Hc1 Hc].
      apply orb_false_iff in Hq1. destruct Hq1 as [Hq1 Hlf].
      apply orb_false_iff in Hq1. destruct Hq1 as [Hcomma Hquote].
        cbn [app tokenize]. rewrite Hc1, Hquote, Hcomma, Hlf.
      rewrite tokenize_unquoted by assumption.
      cbn [tokenize]. change (outside lf) with false.
      change (Ascii.eqb lf quote) with false.
      change (Ascii.eqb lf comma) with false. rewrite Ascii.eqb_refl.
      cbn iota. unfold end_record, end_field. f_equal. f_equal. f_equal.
      f_equal.
      rewrite <- (string_of_list_ascii_of_string f). fold cs. rewrite Ecs.
      f_equal. cbn [rev]. rewrite rev_app_distr, rev_involutive. reflexivity.
Qed.

Lemma tokenize_fields (fs : list string) (g : string) (rest : list ascii)
      (fields : list string) (rows : list (list string)) :
  fs <> [] -> forallb writable fs = true ->
  tokenize (write_fields fs ++ lf :: rest) AtStart [] (g :: fields) rows
  = tokenize rest AtStart [] [] (rev (rev fs ++ g :: fields) :: rows).
Proof.
  revert g fields. induction fs as [|f fs IH]; intros g fields Hne Hw;
    [congruence|].
  cbn [forallb] in Hw. apply andb_true_iff in Hw. destruct Hw as [Hf Hfs].
  destruct fs as [|f' fs'].
  - cbn [write_fields]. rewrite tokenize_field_lf by assumption. reflexivity.
  - change (write_fields (f :: f' :: fs'))
      with (write_field f ++ comma :: write_fields (f' :: fs')).
    rewrite <- app_assoc. cbn [app].
    rewrite tokenize_field_comma by assumption.
    rewrite IH by (congruence || assumption).
    cbn [rev]. now rewrite <- !app_assoc.
Qed.

Lemma tokenize_row (fs : list string) (rest : list ascii)
      (rows : list (list string)) :
  (2 <= List.length fs)%nat -> forallb writable fs = true ->
  tokenize (write_row fs ++ rest) AtStart [] [] rows
  = tokenize rest AtStart [] [] (fs :: rows).
Proof.
  intros Hlen Hw. destruct fs as [|f [|g fs]]; cbn [List.length] in Hlen;
    try lia.
  assert (Erow : write_row (f :: g :: fs)
                 = write_field f ++ comma :: write_fields (g :: fs) ++ [lf]).
  { unfold write_row. destruct f; cbn [write_fields]; now rewrite <- app_assoc. }
  rewrite Erow. cbn [forallb] in Hw. apply andb_true_iff in Hw.
  destruct Hw as [Hf Hfs].
  rewrite <- app_assoc. cbn [app]. rewrite <- app_assoc. cbn [app].
  rewrite tokenize_field_comma by assumption.
  rewrite tokenize_fields by (congruence || assumption).
  rewrite rev_app_distr, rev_involutive. reflexivity.
Qed.

Lemma tokenize_rows (rs acc : list (list string)) :
  Forall (fun fs => (2 <= List.length fs)%nat) rs ->
  forallb (forallb writable) rs = true ->
  tokenize (flat_map write_row rs) AtStart [] [] acc = Some (rev acc ++ rs).
Proof.
  revert acc. induction rs as [|fs rs IH]; intros acc Hlen Hw.
  - cbn. now rewrite app_nil_r.
  - inversion Hlen as [|? ? Hfs Hrs]; subst.
    cbn [forallb] in Hw. apply andb_true_iff in Hw. destruct Hw as [Hw1 Hw2].
    cbn [flat_map]. rewrite tokenize_row by assumption.
    rewrite IH by assumption. cbn [rev]. now rewrite <- app_assoc.
Qed.

Lemma read_write (t : Csv.table) (txt : string) :
  Forall (fun fs => (2 <= List.length fs)%nat) (Csv.header t :: Csv.body t) ->
  write t = Some txt -> read txt = Some t.
Proof.
  intros Hlen. unfold write, read.
  destruct (Csv.header t) as [|h hs] eqn:Eh; [discriminate|].
  destruct (forallb (forallb writable) ((h :: hs) :: Csv.body t)) eqn:Hw;
    [|discriminate].
  intros E.
  assert (E' : txt = string_of_list_ascii
                       (flat_map write_row ((h :: hs) :: Csv.body t)))
    by congruence.
  rewrite E', list_ascii_of_string_of_list_ascii.
  rewrite (tokenize_rows _ [] Hlen Hw). cbn [rev app].
  destruct t. cbn in *. now subst.
Qed.

End CsvFacts.

(** *** The fields of an export are writable *)

Lemma writable_string_of_uint (d : Decimal.uint) :
  Csv.writable (NilEmpty.string_of_uint d) = true.
Proof.
  unfold Csv.writable. apply negb_true_iff.
  induction d; cbn [NilEmpty.string_of_uint list_ascii_of_string existsb];
    [reflexivity|..]; exact IHd.
Qed.

Lemma writable_string_of_int (d : Decimal.int) :
  Csv.writable (NilZero.string_of_int d) = true.
Proof.
  assert (H : forall u, Csv.writable (NilZero.string_of_uint u) = true).
  { intros u. destruct u; try apply writable_string_of_uint. reflexivity. }
  destruct d as [u|u]; cbn [NilZero.string_of_int]; [apply H|].
  specialize (H u). unfold Csv.writable in *.
  cbn [list_ascii_of_string existsb]. exact H.
Qed.

Lemma writable_str_of_Z (z : Z) : Csv.writable (str_of_Z z) = true.
Proof. apply writable_string_of_int. Qed.

Lemma writable_is_int (f : string) : is_int f = true -> Csv.writable f = true.
Proof.
  unfold is_int, Z_of_str.
  destruct (NilZero.int_of_string f) as [d|] eqn:E; [|discriminate].
  intros _. apply NilZero.sis in E. rewrite <- E. apply writable_string_of_int.
Qed.

Lemma writable_text_like (f : string) : text_like f = true -> Csv.writable f = true.
Proof. unfold text_like. rewrite !andb_true_iff. tauto. Qed.

Lemma digit_inside (k : Z) : 0 <= k <= 9 -> Csv.outside (digit k) = false.
Proof.
  intros H.
  assert (E : k = 0 \/ k = 1 \/ k = 2 \/ k = 3 \/ k = 4 \/ k = 5 \/ k = 6
              \/ k = 7 \/ k = 8 \/ k = 9) by lia.
  repeat (destruct E as [->|E]; [reflexivity|]). now subst.
Qed.

Lemma digit_mod_inside (k : Z) : Csv.outside (digit (k mod 10)) = false.
Proof.
  apply digit_inside. pose proof (Z.mod_pos_bound k 10). lia.
Qed.

Lemma digit_div_inside (k n : Z) :
  0 < n -> 0 <= k < 10 * n -> Csv.outside (digit (k / n)) = false.
Proof.
  intros Hn Hk. apply digit_inside. split.
  - apply Z.div_pos; lia.
  - apply Z.lt_succ_r, Z.div_lt_upper_bound; lia.
Qed.

Lemma writable_format_date (t : Timestamp) :
  0 <= year t <= 9999 -> 0 <= month t <= 99 -> 0 <= day t <= 99 ->
  Csv.writable (format_date t) = true.
Proof.
  intros Hy Hm Hd. unfold Csv.writable, format_date. apply negb_true_iff.
  rewrite list_ascii_of_string_of_list_ascii. cbn [existsb].
  rewrite !digit_mod_inside.
  rewrite (digit_div_inside (year t) 1000), (digit_div_inside (month t) 10),
    (digit_div_inside (day t) 10) by lia.
  reflexivity.
Qed.

Lemma writable_date_text (v : date_value) :
  date_ok v = true -> Csv.writable (date_text v) = true.
Proof.
  destruct v as [s|t|]; cbn [date_ok date_text]; [discriminate| |reflexivity].
  intros H. destruct (date_ok_bounds t H) as (Hy & Hm & Hd).
  now apply writable_format_date.
Qed.

Lemma writable_app (a b : string) :
  Csv.writable a = true -> Csv.writable b = true ->
  Csv.writable (a ++ b) = true.
Proof.
  unfold Csv.writable. rewrite !negb_true_iff. intros Ha Hb.
  induction a as [|c a IH]; [exact Hb|].
  cbn [append list_ascii_of_string existsb] in *.
  apply orb_false_iff in Ha. destruct Ha as [Hc Ha].
  rewrite Hc. cbn [orb]. now apply IH.
Qed.

Lemma writable_stay_text (t : dtype) (v : option Z) :
  Csv.writable (stay_text t v) = true.
Proof.
  destruct v as [z|]; [|reflexivity]. cbn [stay_text].
  destruct t; try apply writable_str_of_Z.
  apply writable_app; [apply writable_str_of_Z|reflexivity].
Qed.

Lemma writable_label_text (g : option AgeLabel) :
  Csv.writable (label_text g) = true.
Proof. destruct g as [[]|]; reflexivity. Qed.

Lemma writable_stable_column (cs : list cell) (c : cell) :
  stable_column cs = true -> In c cs -> Csv.writable (cell_text c) = true.
Proof.
  unfold stable_column. rewrite !orb_true_iff, andb_true_iff.
  rewrite !forallb_forall. intros [[H|H]|[H _]] Hc; specialize (H c Hc);
    destruct c as [z|s|]; try discriminate; try reflexivity.
  - apply writable_str_of_Z.
  - cbn [cell_text]. apply orb_true_iff in H.
    destruct H; [now apply writable_is_int|now apply writable_text_like].
Qed.

(** The export of a frame with the export's columns, rows as [load_data]
    builds them and stable identifier and name columns has a text, and the
    tokenizer reads the table back from it. *)
Lemma export_text (d : DataFrame) :
  columns d = export_columns ->
  forallb exportable (rows d) = true ->
  stable_column (map patient_id (rows d)) = true ->
  stable_column (map name (rows d)) = true ->
  exists txt, to_csv_text d = Some txt /\ Csv.read txt = Some (to_csv d).
Proof.
  intros Hcols Hexp Hids Hnames. rewrite forallb_forall in Hexp.
  assert (Hw : forallb (forallb Csv.writable)
                       (Csv.header (to_csv d) :: Csv.body (to_csv d)) = true).
  { unfold to_csv. cbn [Csv.header Csv.body forallb].
    apply andb_true_iff. split; [now rewrite Hcols|].
    apply forallb_forall. intros fs Hfs. apply in_map_iff in Hfs.
    destruct Hfs as [r [<- Hr]]. rewrite (export_fields d r Hcols).
    destruct (exportable_spec r (Hexp r Hr)) as (Hs & Ha & Hd & _).
    cbn [forallb].
    rewrite (writable_stable_column _ (patient_id r) Hids (in_map patient_id _ r Hr)).
    rewrite (writable_stable_column _ (name r) Hnames (in_map name _ r Hr)).
    rewrite !writable_str_of_Z, (writable_text_like _ Hs),
      (writable_date_text _ Ha), (writable_date_text _ Hd),
      writable_stay_text, writable_label_text.
    reflexivity. }
  assert (Hlen : Forall (fun fs => (2 <= List.length fs)%nat)
                        (Csv.header (to_csv d) :: Csv.body (to_csv d))).
  { unfold to_csv. cbn [Csv.header Csv.body]. constructor.
    - rewrite Hcols. cbn. lia.
    - apply Forall_forall. intros fs Hfs. apply in_map_iff in Hfs.
      destruct Hfs as [r [<- _]]. rewrite length_map, Hcols. cbn. lia. }
  assert (Hwrite : exists txt, Csv.write (to_csv d) = Some txt).
  { unfold Csv.write. rewrite Hw.
    destruct (Csv.header (to_csv d)) as [|h hs] eqn:Eh; [|eauto].
    exfalso. unfold to_csv in Eh. cbn [Csv.header] in Eh.
    rewrite Hcols in Eh. discriminate Eh. }
  destruct Hwrite as [txt Htxt]. exists txt. split; [exact Htxt|].
  now apply read_write.
Qed.

Lemma read_rows_length (id_t name_t : dtype) (extras : list string)
      (body : list (list string)) (rs : list Row) :
  read_rows id_t name_t extras body = Some rs ->
  List.length rs = List.length body.
Proof.
  revert rs. induction body as [|fields body IH]; intros rs; cbn [read_rows].
  - intros E. now injection E as <-.
  - destruct (read_row id_t name_t extras fields) as [r|]; [|discriminate].
    destruct (read_rows id_t name_t extras body) as [rs'|]; [|discriminate].
    intros E. injection E as <-. cbn [List.length]. now rewrite (IH rs').
Qed.

Lemma map_result_length {A B} (f : A -> result B) (l : list A) (ys : list B) :
  map_result f l = Ok ys -> List.length ys = List.length l.
Proof.
  intros H. apply map_result_inv in H.
  induction H; cbn [List.length]; congruence.
Qed.

(** [load_data] builds one row per record of the file. *)
Lemma load_data_length (t : Csv.table) (df : DataFrame) :
  load_data (Some t) = Ok df ->
  List.length (rows df) = List.length (Csv.body t).
Proof.
  unfold load_data, read_csv.
  destruct (list_eq_dec string_dec _ _); [|discriminate].
  destruct (infer (column 0 (Csv.body t))) as [id_t|]; [|discriminate].
  destruct (infer (column 1 (Csv.body t))) as [name_t|]; [|discriminate].
  destruct (read_rows id_t name_t _ (Csv.body t)) as [rs|] eqn:Er; [|discriminate].
  cbn [bind]. unfold derive. cbn [rows columns name_dtype].
  destruct (map_result _ rs) as [arr| |] eqn:Ea; cbn [bind]; try discriminate.
  destruct (map_result (fun r => to_datetime (departure_date r)) rs)
    as [dep| |] eqn:Ed; cbn [bind]; try discriminate.
  intros E. injection E as <-. cbn [rows].
  apply map_result_length in Ea, Ed. apply read_rows_length in Er.
  rewrite !length_map, !length_combine, Ea, Ed, !Nat.min_id. exact Er.
Qed.

(** A view holds no more rows than the store. *)
Lemma view_length (df view : DataFrame) (c : Criteria) (term : string) :
  search_df term (exported_view c df) = Ok view ->
  (List.length (rows view) <= List.length (rows df))%nat.
Proof.
  unfold search_df. set (f := exported_view c df).
  assert (Hf : (List.length (rows f) <= List.length (rows df))%nat).
  { unfold f, exported_view, assign_age_group, filtered_df, boolean_index.
    cbn [rows]. rewrite length_map. apply filter_length_le. }
  destruct (String.eqb term "").
  - intros E. now injection E as <-.
  - destruct (name_dtype f); try discriminate.
    destruct (forallb _ (rows f)); try discriminate.
    destruct (Re.compile term) as [[r|]|]; try discriminate.
    intros E. injection E as <-. cbn [boolean_index rows].
    etransitivity; [apply filter_length_le|exact Hf].
Qed.

Lemma cell_of_fits (t : dtype) (f : string) :
  fits_int64 f = true -> cell_fits (cell_of t f) = true.
Proof.
  intros H. destruct t; cbn [cell_of].
  - unfold fits_int64 in H. now destruct (Z_of_str f).
  - reflexivity.
  - now destruct (is_na f).
Qed.

Lemma read_row_fits (id_t name_t : dtype) (extras fields : list string) (r : Row) :
  read_row id_t name_t extras fields = Some r ->
  forallb (fun i => fits_int64 (nth i fields EmptyString)) [0; 1; 2; 6]%nat = true ->
  row_fits r = true.
Proof.
  unfold read_row.
  destruct fields as [|f0 [|f1 [|f2 [|f3 [|f4 [|f5 [|f6 rest]]]]]]];
    try discriminate.
  cbn [forallb nth]. rewrite !andb_true_iff.
  intros E (H0 & H1 & H2 & H6 & _). revert E.
  unfold fits_int64 in H2, H6.
  destruct (Z_of_str f2) as [a|]; [|discriminate].
  destruct (Z_of_str f6) as [b|]; [|discriminate].
  destruct (date_cell f4); [|discriminate].
  destruct (date_cell f5); [|discriminate].
  destruct (read_extras extras rest); [|discriminate].
  destruct (text_like f3); [|discriminate].
  intros E. injection E as <-. unfold row_fits.
  cbn [patient_id name age satisfaction].
  now rewrite !cell_of_fits, H2, H6.
Qed.

Lemma read_rows_fits (id_t name_t : dtype) (extras : list string)
      (body : list (list string)) (rs : list Row) :
  read_rows id_t name_t extras body = Some rs ->
  forallb (fun fields =>
             forallb (fun i => fits_int64 (nth i fields EmptyString))
                     [0; 1; 2; 6]%nat) body = true ->
  forallb row_fits rs = true.
Proof.
  revert rs. induction body as [|fields body IH]; intros rs; cbn [read_rows].
  - intros E _. now injection E as <-.
  - destruct (read_row id_t name_t extras fields) as [r|] eqn:Er; [|discriminate].
    destruct (read_rows id_t name_t extras body) as [rs'|]; [|discriminate].
    intros E H. injection E as <-.
    rewrite forallb_forall in H.
    assert (Hrs : forallb row_fits rs' = true).
    { apply IH; [reflexivity|]. apply forallb_forall.
      intros x Hx. apply H. now right. }
    change (row_fits r && forallb row_fits rs' = true).
    rewrite Hrs, andb_true_r.
    eapply read_row_fits; [exact Er|]. apply H. now left.
Qed.

(** The integers of a store loaded from a file of int64 fields fit
    int64. *)
Lemma load_data_fits (t : Csv.table) (df : DataFrame) :
  load_data (Some t) = Ok df -> int64_fields t = true ->
  forallb row_fits (rows df) = true.
Proof.
  unfold load_data, read_csv, int64_fields.
  destruct (list_eq_dec string_dec _ _); [|discriminate].
  destruct (infer (column 0 (Csv.body t))) as [id_t|]; [|discriminate].
  destruct (infer (column 1 (Csv.body t))) as [name_t|]; [|discriminate].
  destruct (read_rows id_t name_t _ (Csv.body t)) as [rs|] eqn:Er; [|discriminate].
  cbn [bind]. unfold derive. cbn [rows columns name_dtype].
  destruct (map_result _ rs) as [arr| |]; cbn [bind]; try discriminate.
  destruct (map_result (fun r => to_datetime (departure_date r)) rs)
    as [dep| |]; cbn [bind]; try discriminate.
  intros E Hfields. injection E as <-. cbn [rows].
  pose proof (read_rows_fits _ _ _ _ _ Er Hfields) as Hrs.
  rewrite forallb_forall in Hrs. apply forallb_forall. intros r Hr.
  apply in_map_iff in Hr. destruct Hr as [r1 [<- Hr1]].
  apply in_map_iff in Hr1. destruct Hr1 as [[r0 [a b]] [<- Hr0]].
  apply in_combine_l in Hr0. apply Hrs in Hr0.
  cbn [fst snd]. destruct r0. exact Hr0.
Qed.

Lemma view_fits (df view : DataFrame) (c : Criteria) (term : string) :
  forallb row_fits (rows df) = true ->
  search_df term (exported_view c df) = Ok view ->
  forallb row_fits (rows view) = true.
Proof.
  intros Hfits Hsearch.
  destruct (search_df_Ok _ _ _ Hsearch) as [_ Hvr].
  apply forallb_forall. intros r Hr. apply Hvr in Hr.
  unfold exported_view, assign_age_group in Hr. cbn [rows] in Hr.
  apply in_map_iff in Hr. destruct Hr as [r0 [<- Hr0]].
  unfold filtered_df, boolean_index in Hr0. cbn [rows] in Hr0.
  apply filter_In in Hr0. rewrite forallb_forall in Hfits.
  destruct Hr0 as [Hr0 _]. apply Hfits in Hr0. destruct r0. exact Hr0.
Qed.

Lemma fits_cell_text (c : cell) :
  cell_fits c = true -> fits_int64 (cell_text c) = true.
Proof.
  destruct c as [z|s|]; cbn [cell_fits cell_text]; intros H.
  - unfold fits_int64. now rewrite Z_of_str_of_Z.
  - exact H.
  - reflexivity.
Qed.

(** The export of such rows is a file of int64 fields. *)
Lemma export_fits (d : DataFrame) :
  columns d = export_columns -> forallb row_fits (rows d) = true ->
  int64_fields (to_csv d) = true.
Proof.
  intros Hcols Hfits. unfold int64_fields, to_csv. cbn [Csv.body].
  apply forallb_forall. intros fields Hf.
  apply in_map_iff in Hf. destruct Hf as [r [<- Hr]].
  rewrite (export_fields d r Hcols). cbn [forallb nth].
  rewrite forallb_forall in Hfits. apply Hfits in Hr.
  unfold row_fits in Hr. rewrite !andb_true_iff in Hr.
  destruct Hr as [[[Hid Hname] Hage] Hsat].
  rewrite !fits_cell_text by assumption.
  unfold fits_int64. rewrite !Z_of_str_of_Z. now rewrite Hage, Hsat.
Qed.

(** The view the script exports has the export's columns and rows as
    [load_data] builds them. *)
Lemma view_exportable (df view : DataFrame) (c : Criteria) (term : string) :
  columns df = base_columns ++ ["length_of_stay"%string] ->
  forallb exportable (rows df) = true ->
  search_df term (exported_view c df) = Ok view ->
  columns view = export_columns /\ forallb exportable (rows view) = true.
Proof.
  intros Hcols Hexp Hsearch.
  destruct (search_df_Ok _ _ _ Hsearch) as [Hvc Hvr]. split.
  - rewrite Hvc. unfold exported_view, assign_age_group, filtered_df,
      boolean_index. cbn [columns]. now rewrite Hcols.
  - apply forallb_forall. intros r Hr. apply Hvr in Hr.
    unfold exported_view, assign_age_group in Hr. cbn [rows] in Hr.
    apply in_map_iff in Hr. destruct Hr as [r0 [<- Hr0]].
    rewrite exportable_set_age_group.
    unfold filtered_df, boolean_index in Hr0. cbn [rows] in Hr0.
    apply filter_In in Hr0. rewrite forallb_forall in Hexp.
    now apply Hexp.
Qed.




(** ** The script on the sample file *)

Section Examples.
Import PrimFloat.

Example run_all_selected :
  snd (snd (run false (stable_argsort Qle_bool) (stable_argsort Z.leb)
                None (Some patients_csv) all_selected))
  = Ok tt.
Proof. vm_compute. reflexivity. Qed.

(** The page of that run: the newborn and the centenarian are in no age
    bucket, and the export carries the derived columns. *)
Example page_all_selected :
  page (fst (snd (run false (stable_argsort Qle_bool) (stable_argsort Z.leb)
                      None (Some patients_csv) all_selected)))
  = [ sidebar_markdown 3 3;
      metric_average_satisfaction (Py.Fin 80%Q);
      metric_average_stay (Py.Fin (7 # 2)%Q);
      metric_total_patients 3;
      metric_most_common_service "Cardiology";
      bar_chart [("Cardiology", Py.Fin 85%Q); ("Surgery", Py.Fin 70%Q)]%string;
      insight ("Cardiology", Py.Fin 85%Q)%string ("Surgery", Py.Fin 70%Q)%string;
      scatter [(Some 4, 70); (Some 3, 80); (None, 90)];
      metric_correlation (-0x1.fffffffffffffp-1)%float;
      correlation_note negative_correlation;
      histogram [30; 0; 101];
      line_chart [ (L0_18, Py.NaN); (L19_35, Py.Fin 70%Q); (L36_50, Py.NaN);
                   (L51_65, Py.NaN); (L65plus, Py.NaN) ];
      dataframe [ (CStr "001", CStr "Ann Lee", 30, "Surgery", Some 4, 70);
                  (CStr "A02", CStr "Bob", 0, "Cardiology", Some 3, 80);
                  (CStr "A03", CNaN, 101, "Cardiology", None, 90) ]%string;
      download_button
        (Csv.mkTable export_columns
           [ ["001"; "Ann Lee"; "30"; "Surgery"; "2024-01-05"; "2024-01-09";
              "70"; "4.0"; "19-35"];
             ["A02"; "Bob"; "0"; "Cardiology"; "2024-02-27"; "2024-03-01";
              "80"; "3.0"; ""];
             ["A03"; ""; "101"; "Cardiology"; ""; "2024-03-01"; "90"; ""; ""]
           ]%string);
      write_service_counts [("Cardiology", 2); ("Surgery", 1)]%string ].
Proof. vm_compute. reflexivity. Qed.

(** A search term that is a pattern, one that is text, one that
    [re.compile] rejects, and a name column without text. *)
Example search_dot :
  option_map (fun d => map name (rows d))
             (match search_df "." patients with Ok d => Some d | _ => None end)
  = Some [CStr "Ann Lee"; CStr "Bob"]%string.
Proof. vm_compute. reflexivity. Qed.

Example search_text :
  option_map (fun d => map name (rows d))
             (match search_df "BO" patients with Ok d => Some d | _ => None end)
  = Some [CStr "Bob"]%string.
Proof. vm_compute. reflexivity. Qed.

Example search_lone_backslash :
  search_df (String Re.backslash EmptyString) patients = Raise PatternError.
Proof. vm_compute. reflexivity. Qed.

Example search_without_text_column :
  search_df "a" (mkDataFrame (columns patients) float64 int64 (rows patients))
  = Raise AttributeError.
Proof. vm_compute. reflexivity. Qed.

(** A constant column gives [nan] in binary64 as well. *)
(** [round64] against the hardware: the quotient of two integers in
    float64, as the primitive division computes it. *)
Example round64_is_the_float64_quotient :
  let samples := [ (50, 3); (1, 3); (2, 3); (-7, 3); (1000000000000000, 7);
                   (9007199254740991, 2); (99, 98); (7, 2); (80, 1); (0, 5);
                   (1, 9007199254740991) ]%Z in
  map (fun p => Corr64.to_Q (Corr64.of_Z (fst p) / Corr64.of_Z (snd p))) samples
  = map (fun p => Some (round64 (fst p # Z.to_pos (snd p)))) samples.
Proof. vm_compute. reflexivity. Qed.

(** A name with a comma and a line feed goes through the text. *)
Example quoted_field_round_trip :
  let t := Csv.mkTable ["name"; "age"]%string
             [ [String "L" (String "," (String Csv.lf "A")); "30"]%string ] in
  option_map Csv.read (Csv.write t) = Some (Some t).
Proof. vm_compute. reflexivity. Qed.

Example correlation_of_constant_stays :
  correlation (filtered_df (mkCriteria ["Surgery"]%string (30, 40) 0) three_stays)
  = PrimFloat.nan.
Proof. vm_compute. reflexivity. Qed.

End Examples.
